(** * flash-learn: the card-generation relay of [server.js]

    A shallow embedding of the [POST /api/generate-cards] handler: the
    line-framing loop that turns provider fragments into NDJSON lines, the
    two provider adapters with their usage bookkeeping, the request guards
    and the cost estimate.

    JavaScript strings are sequences of UTF-16 code units; a code unit is
    modelled as an [N], a string as [list N].  JavaScript numbers are IEEE
    binary64 values, modelled by the kernel's primitive floats.
    [process.env] is a finite map from names to strings. *)

From Stdlib Require Import NArith Floats.
From Stdlib Require Import String Ascii.
From Equations Require Import Equations.
From stdpp Require Import gmap strings list.

Local Open Scope N_scope.

(** ** JavaScript strings *)

Module JsString.

(** A string value: its UTF-16 code units. *)
Abbreviation jsstring := (list N).

Definition LF : N := 10.
Definition BACKTICK : N := 96.
Definition LBRACE : N := 123.
Definition RBRACE : N := 125.

(** [WhiteSpace] and [LineTerminator] of ECMA-262: what [String.prototype.trim]
    removes and what the regular-expression class [\s] matches. *)
Definition is_space (c : N) : bool :=
  (9 <=? c) && (c <=? 13)
  || (c =? 32) || (c =? 160) || (c =? 5760)
  || (8192 <=? c) && (c <=? 8202)
  || (c =? 8232) || (c =? 8233) || (c =? 8239) || (c =? 8287)
  || (c =? 12288) || (c =? 65279).

(** The first code unit is there and is not white space. *)
Definition starts_solid (s : jsstring) : bool :=
  match s with
  | c :: _ => negb (is_space c)
  | [] => false
  end.

Fixpoint dropWhile (p : N -> bool) (s : jsstring) : jsstring :=
  match s with
  | [] => []
  | c :: s' => if p c then dropWhile p s' else s
  end.

Definition trimStart (s : jsstring) : jsstring := dropWhile is_space s.
Definition trimEnd (s : jsstring) : jsstring := rev (dropWhile is_space (rev s)).

(** [s.trim()] *)
Definition trim (s : jsstring) : jsstring := trimEnd (trimStart s).

(** [s.indexOf('\n')]: [None] stands for [-1]. *)
Fixpoint indexOf (c : N) (s : jsstring) : option nat :=
  match s with
  | [] => None
  | d :: s' => if d =? c then Some O else S <$> indexOf c s'
  end.

(** [s.slice(0, i)] and [s.slice(i)] for [0 <= i]. *)
Definition slice_to (i : nat) (s : jsstring) : jsstring := take i s.
Definition slice_from (i : nat) (s : jsstring) : jsstring := drop i s.

(** [s.substring(0, n)] *)
Definition substring0 (n : nat) (s : jsstring) : jsstring := take n s.

(** [s.startsWith(p)] *)
Fixpoint startsWith (p s : jsstring) : bool :=
  match p, s with
  | [], _ => true
  | _ :: _, [] => false
  | a :: p', b :: s' => (a =? b) && startsWith p' s'
  end.

(** The opening fence of [/^```json\s*/]: three backticks and [json]. *)
Definition OPEN_FENCE : jsstring := [96; 96; 96; 106; 115; 111; 110].

(** [s.replace(/^```json\s*/, '')]: the pattern is anchored at the start of
    the input (no [m] flag) and [\s*] is greedy. *)
Definition strip_open_fence (s : jsstring) : jsstring :=
  if startsWith OPEN_FENCE s
  then dropWhile is_space (drop (length OPEN_FENCE) s)
  else s.

(** [s.replace(/\s*```$/, '')]: [$] is the end of the input, so a match is
    a run of white space followed by the last three code units, which must be
    backticks; the leftmost match takes the whole run before them. *)
Definition strip_close_fence (s : jsstring) : jsstring :=
  match rev s with
  | 96 :: 96 :: 96 :: r => rev (dropWhile is_space r)
  | _ => s
  end.

(** The closing fence of [/\s*```$/]. *)
Definition CLOSE_FENCE : jsstring := [96; 96; 96].

(** Code units of an ASCII literal. *)
Fixpoint lit (s : string) : jsstring :=
  match s with
  | EmptyString => []
  | String a s' => N_of_ascii a :: lit s'
  end.

(** The same, with every apostrophe read as a double quote, so that JSON
    texts can be written down as literals. *)
Definition js (s : string) : jsstring :=
  (fun c => if c =? 39 then 34 else c) <$> lit s.

End JsString.
Import JsString.

(** ** A JSON recogniser

    [JSON.parse] belongs to the runtime, and the results below hold for any
    behaviour of it.  This recogniser of the JSON grammar (ECMA-404) is the
    instance used to run the handler on concrete inputs. *)

Module Json.

Definition is_ws (c : N) : bool :=
  (c =? 32) || (c =? 9) || (c =? 10) || (c =? 13).

Definition is_digit (c : N) : bool := (48 <=? c) && (c <=? 57).

Definition is_hex (c : N) : bool :=
  is_digit c || (65 <=? c) && (c <=? 70) || (97 <=? c) && (c <=? 102).

Definition is_escape (c : N) : bool :=
  (c =? 34) || (c =? 92) || (c =? 47) || (c =? 98) || (c =? 102)
  || (c =? 110) || (c =? 114) || (c =? 116).

Definition skip_ws (s : jsstring) : jsstring := dropWhile is_ws s.

(** What follows the opening quote of a string, up to its closing quote;
    the result is the rest of the input. *)
Fixpoint string_rest (s : jsstring) : option jsstring :=
  match s with
  | [] => None
  | c :: r =>
    if c =? 34 then Some r
    else if c =? 92 then
      match r with
      | e :: r1 =>
        if is_escape e then string_rest r1
        else if e =? 117 then
          match r1 with
          | h1 :: h2 :: h3 :: h4 :: r2 =>
            if is_hex h1 && is_hex h2 && is_hex h3 && is_hex h4
            then string_rest r2 else None
          | _ => None
          end
        else None
      | [] => None
      end
    else if c <? 32 then None
    else string_rest r
  end.

(** One digit or more. *)
Definition digits (s : jsstring) : option jsstring :=
  match s with
  | c :: r => if is_digit c then Some (dropWhile is_digit r) else None
  | [] => None
  end.

Definition number (s : jsstring) : option jsstring :=
  let s := match s with 45 :: r => r | _ => s end in
  let int :=
    match s with
    | c :: r => if c =? 48 then Some r else digits s
    | [] => None
    end in
  r ← int;
  r ← match r with 46 :: r' => digits r' | _ => Some r end;
  match r with
  | e :: r' =>
    if (e =? 101) || (e =? 69) then
      digits (match r' with
              | g :: r'' => if (g =? 43) || (g =? 45) then r'' else r'
              | [] => r'
              end)
    else Some r
  | [] => Some r
  end.

Definition keyword (k : string) (s : jsstring) : option jsstring :=
  if startsWith (lit k) s then Some (drop (length (lit k)) s) else None.

(** A value, the members of an object after its first brace, the elements of
    an array after its first bracket.  A call uses one unit of fuel, and no
    two calls in a row leave the input as it was. *)
Fixpoint value (fuel : nat) (s : jsstring) : option jsstring :=
  match fuel with
  | O => None
  | S fuel =>
    match skip_ws s with
    | [] => None
    | c :: r =>
      if c =? 123 then
        match skip_ws r with
        | 125 :: r' => Some r'
        | r' => members fuel r'
        end
      else if c =? 91 then
        match skip_ws r with
        | 93 :: r' => Some r'
        | r' => elements fuel r'
        end
      else if c =? 34 then string_rest r
      else if c =? 116 then keyword "true" (c :: r)
      else if c =? 102 then keyword "false" (c :: r)
      else if c =? 110 then keyword "null" (c :: r)
      else number (c :: r)
    end
  end
with members (fuel : nat) (s : jsstring) : option jsstring :=
  match fuel with
  | O => None
  | S fuel =>
    match skip_ws s with
    | 34 :: r =>
      r ← string_rest r;
      match skip_ws r with
      | 58 :: r =>
        r ← value fuel r;
        match skip_ws r with
        | 44 :: r => members fuel r
        | 125 :: r => Some r
        | _ => None
        end
      | _ => None
      end
    | _ => None
    end
  end
with elements (fuel : nat) (s : jsstring) : option jsstring :=
  match fuel with
  | O => None
  | S fuel =>
    r ← value fuel s;
    match skip_ws r with
    | 44 :: r => elements fuel r
    | 93 :: r => Some r
    | _ => None
    end
  end.

(** The whole text is one value, white space around it allowed. *)
Definition valid (text : jsstring) : bool :=
  match value (2 * length text + 2) text with
  | Some r => match skip_ws r with [] => true | _ => false end
  | None => false
  end.

End Json.

(** ** A reader of decimal numbers

    [parseFloat] belongs to the runtime as well.  This instance reads the
    plain decimal texts rates are written in: leading white space, a sign,
    digits and a fraction; what follows is ignored and a text with no digit
    gives NaN.  Exponents and [Infinity] are not read.  The quotient of the
    digits by a power of ten is correctly rounded as long as both are
    integers a binary64 holds exactly. *)

Module Runtime.

Fixpoint read_digits (acc : N) (count : nat) (s : jsstring) : N * nat * jsstring :=
  match s with
  | c :: r =>
    if Json.is_digit c then read_digits (acc * 10 + (c - 48)) (S count) r
    else (acc, count, s)
  | [] => (acc, count, s)
  end.

Definition of_N (n : N) : float := PrimFloat.of_uint63 (Uint63.of_Z (Z.of_N n)).

Definition parseFloat (s : jsstring) : float :=
  let s := dropWhile is_space s in
  let '(negative, s) :=
    match s with
    | 45 :: r => (true, r)
    | 43 :: r => (false, r)
    | _ => (false, s)
    end in
  let '(int, n_int, r) := read_digits 0 O s in
  let '(mantissa, n_all, _) :=
    match r with
    | 46 :: r' => read_digits int n_int r'
    | _ => (int, n_int, r)
    end in
  if bool_decide (n_all = O) then PrimFloat.nan
  else
    let x := (of_N mantissa / of_N (10 ^ N.of_nat (n_all - n_int)))%float in
    if negative then (- x)%float else x.

End Runtime.

(** ** What the handler does to the outside world *)

Inductive level := LDebug | LInfo | LWarn | LError.

(** JavaScript numbers. *)
Abbreviation number := float.

Inductive provider := Gemini | OpenAI.

(** The values [express.json()] can leave in [req.body] and in its fields:
    what [JSON.parse] builds, and [JUndefined] for what is absent.  An object
    is given by its own properties in the order of the text; a name written
    twice keeps its last value.  No property is a function and no prototype
    is changed, [JSON.parse] defining [__proto__] as an own property like any
    other. *)
#[local] Unset Elimination Schemes.
Inductive jsval :=
| JUndefined
| JNull
| JBool (b : bool)
| JNumber (x : number)
| JString (s : jsstring)
| JArray (items : list jsval)
| JObject (fields : list (jsstring * jsval)).
#[local] Set Elimination Schemes.

(** The own property [key] of an object with these fields. *)
Fixpoint own_property (key : jsstring) (fields : list (jsstring * jsval))
  : option jsval :=
  match fields with
  | [] => None
  | (k, v) :: rest =>
    match own_property key rest with
    | Some v' => Some v'
    | None => if bool_decide (k = key) then Some v else None
    end
  end.

(** [v[key]] for a [key] that is neither an index, nor [length], nor defined
    on a prototype: the own property of an object, and undefined for every
    other value. *)
Definition get (key : jsstring) (v : jsval) : jsval :=
  match v with
  | JObject fields => default JUndefined (own_property key fields)
  | _ => JUndefined
  end.

(** A length as a number; exact below 2^53, which no length exceeds. *)
Definition number_of_nat (n : nat) : number :=
  PrimFloat.of_uint63 (Uint63.of_Z (Z.of_nat n)).

(** [v.length] for a [v] that is neither undefined nor null: the length of a
    string or an array, the own property of an object, and undefined for a
    number or a boolean. *)
Definition length_of (v : jsval) : jsval :=
  match v with
  | JString s => JNumber (number_of_nat (length s))
  | JArray items => JNumber (number_of_nat (length items))
  | JObject fields => default JUndefined (own_property (lit "length") fields)
  | _ => JUndefined
  end.

(** Whether converting [v] to a string, as a template literal and
    [Array.prototype.join] do, throws a TypeError.  An object with an own
    property [toString] has no callable [toString], that property coming from
    JSON, and its [valueOf], own or inherited, gives no primitive either; any
    other object is converted by [Object.prototype.toString].  An array is
    converted by [join], which converts its items, taking undefined and null
    as the empty string.  The depth of the call stack is not modelled. *)
Fixpoint toString_throws (v : jsval) : bool :=
  match v with
  | JObject fields =>
    match own_property (lit "toString") fields with
    | Some _ => true
    | None => false
    end
  | JArray items => existsb toString_throws items
  | _ => false
  end.

(** The TypeErrors the handler can run into: [req.body] is undefined or null
    where it is destructured, or a value has no conversion to a string. *)
Inductive type_error :=
| NotDestructurable (v : jsval)
| NotConvertible.

(** The logger's messages, by the call that writes them, with the values
    interpolated into their text.  The [PERF] line of the first chunk is
    [FirstContentChunk]; the time elapsed that its text carries is a clock
    reading and is not part of the message. *)
Inductive message :=
| ReceivedRequest
| RequestTopic (topic : jsval)
| ContextProvided (length : jsval)
| TopicMissing
| SelectedProvider (name : jsstring)
| CheckingKey (p : provider)
| KeyNotSet (p : provider)
| CallingApi (p : provider) (model : jsstring)
| StreamStarted
| FirstContentChunk
| ProcessingLine (len : nat)
| ParsedCard (n : nat)
| SkippingInvalid (text : jsstring)
| ParsedFinalCard (n : nat)
| FinalBufferInvalid (text : jsstring)
| StreamCompleted
| CostProvider (name : jsstring)
| CostUsage (inputTokens outputTokens : number)
| CostEstimated (totalCost : number)
| UsageNotCollected
| CriticalError (err : jsstring).

(** The bodies given to [res.json]. *)
Inductive json_body :=
| ErrorBody (error : jsstring)
| ErrorDetails (error details : jsstring).

Inductive effect :=
| Log (lv : level) (m : message)
| SetHeader (name value : jsstring)
| SetStatus (code : nat)
| SendJson (body : json_body)
| ResWrite (data : jsstring)
| ResEnd
| UpstreamCall (p : provider) (model : jsstring) (topic : jsval)
    (exclusions : option (list jsval)).

Abbreviation trace := (list effect).

(** The chunks written to the response body, in order. *)
Definition writes (t : trace) : list jsstring :=
  omap (fun e => match e with ResWrite d => Some d | _ => None end) t.

(** The messages logged at level [warn], in order. *)
Definition warnings (t : trace) : list message :=
  omap (fun e => match e with Log LWarn m => Some m | _ => None end) t.

(** The upstream calls made, in order. *)
Definition upstream_calls (t : trace) : list provider :=
  omap (fun e => match e with UpstreamCall p _ _ _ => Some p | _ => None end) t.

(** [res.headersSent]: a write, an end or a JSON body has gone out. *)
Definition headersSent (t : trace) : bool :=
  existsb (fun e => match e with
                    | ResWrite _ | ResEnd | SendJson _ => true
                    | _ => false
                    end) t.

(** ** The usage summary *)

Record usage_summary := { inputTokens : number; outputTokens : number }.

(** ** The framing loop *)

Record loop_state := {
  buffer : jsstring;
  firstChunkReceived : bool;
  cardCount : nat;
  providerUsage : usage_summary;
  effects : trace
}.

Definition perform (e : effect) (st : loop_state) : loop_state :=
  {| buffer := buffer st; firstChunkReceived := firstChunkReceived st;
     cardCount := cardCount st; providerUsage := providerUsage st;
     effects := effects st ++ [e] |}.

Definition set_buffer (b : jsstring) (st : loop_state) : loop_state :=
  {| buffer := b; firstChunkReceived := firstChunkReceived st;
     cardCount := cardCount st; providerUsage := providerUsage st;
     effects := effects st |}.

Definition incr_cardCount (st : loop_state) : loop_state :=
  {| buffer := buffer st; firstChunkReceived := firstChunkReceived st;
     cardCount := S (cardCount st); providerUsage := providerUsage st;
     effects := effects st |}.

Definition set_firstChunkReceived (st : loop_state) : loop_state :=
  {| buffer := buffer st; firstChunkReceived := true;
     cardCount := cardCount st; providerUsage := providerUsage st;
     effects := effects st |}.

Definition set_providerUsage (u : usage_summary) (st : loop_state) : loop_state :=
  {| buffer := buffer st; firstChunkReceived := firstChunkReceived st;
     cardCount := cardCount st; providerUsage := u;
     effects := effects st |}.

Definition inspect {A} (a : A) : {b : A | a = b} := exist _ a eq_refl.

Section Framing.

(** [JSON.parse] of the runtime, as far as the handler looks at it: [true]
    when it returns a value, [false] when it throws. *)
Variable JSON_parse : jsstring -> bool.

(** Lines 205-217: the body of [if (line)] included.  [line] is the trimmed
    candidate. *)
Definition process_line (line : jsstring) (st : loop_state) : loop_state :=
  match line with
  | [] => st
  | _ :: _ =>
    let st := perform (Log LDebug (ProcessingLine (length line))) st in
    let cleanedLine := strip_close_fence (strip_open_fence line) in
    if startsWith [LBRACE] cleanedLine then
      if JSON_parse cleanedLine then
        let st := incr_cardCount st in
        let st := perform (Log LInfo (ParsedCard (cardCount st))) st in
        perform (ResWrite (cleanedLine ++ [LF])) st
      else
        perform (Log LWarn (SkippingInvalid (substring0 50 line))) st
    else st
  end.

(** Lines 201-218: [while ((newlineIndex = buffer.indexOf('\n')) !== -1)]. *)
Equations? drain (st : loop_state) : loop_state by wf (length (buffer st)) lt :=
  drain st with inspect (indexOf LF (buffer st)) := {
    | exist _ None _ => st
    | exist _ (Some newlineIndex) H =>
        let line := trim (slice_to newlineIndex (buffer st)) in
        let st' := set_buffer (slice_from (S newlineIndex) (buffer st)) st in
        drain (process_line line st') }.
Proof.
  assert (buffer (process_line line st') = buffer st') as ->.
  { unfold process_line. destruct line; [done|]. repeat case_match; done. }
  subst st'. cbn [buffer set_buffer]. unfold slice_from. rewrite length_drop.
  assert (newlineIndex < length (buffer st))%nat; [|lia].
  clear drain line. revert newlineIndex H.
  induction (buffer st) as [|d s IH]; simpl; intros i H; [done|].
  destruct (d =? LF); [simplify_eq; lia|].
  destruct (indexOf LF s) as [j|]; simplify_eq/=.
  specialize (IH j eq_refl). lia.
Qed.

(** Lines 192-195: the first turn logs the [PERF] line and sets the flag. *)
Definition first_chunk (st : loop_state) : loop_state :=
  if firstChunkReceived st then st
  else set_firstChunkReceived (perform (Log LInfo FirstContentChunk) st).

(** Lines 191-219: one turn of [for await (const content of iterator)]. *)
Definition on_content (content : jsstring) (st : loop_state) : loop_state :=
  let st := first_chunk st in
  drain (set_buffer (buffer st ++ content) st).

(** Lines 221-233: the remaining buffer, once the iterator is exhausted. *)
Definition flush_buffer (st : loop_state) : loop_state :=
  match trim (buffer st) with
  | [] => st
  | _ :: _ =>
    let cleanedLine :=
      strip_close_fence (strip_open_fence (trim (buffer st))) in
    if startsWith [LBRACE] cleanedLine then
      if JSON_parse cleanedLine then
        let st := incr_cardCount st in
        let st := perform (Log LInfo (ParsedFinalCard (cardCount st))) st in
        perform (ResWrite (cleanedLine ++ [LF])) st
      else
        perform (Log LWarn (FinalBufferInvalid (substring0 50 (buffer st)))) st
    else st
  end.

Definition initial_state : loop_state :=
  {| buffer := []; firstChunkReceived := false; cardCount := O;
     providerUsage := {| inputTokens := 0%float; outputTokens := 0%float |};
     effects := [] |}.

(** The framing parser alone, lines 187-233, over the fragments an iterator
    yields. *)
Definition frame_from (st : loop_state) (fragments : list jsstring) : loop_state :=
  foldl (fun st content => on_content content st) st fragments.

Definition frame (fragments : list jsstring) : loop_state :=
  flush_buffer (frame_from initial_state fragments).

(** *** The parser as the specification words it *)

(** The substrings between consecutive newlines, and the final remainder. *)
Fixpoint candidate_lines (text : jsstring) : list jsstring :=
  match text with
  | [] => [[]]
  | c :: text' =>
    if c =? LF then [] :: candidate_lines text'
    else match candidate_lines text' with
         | l :: ls => (c :: l) :: ls
         | [] => [[c]]
         end
  end.

(** A candidate after trimming and fence stripping. *)
Definition cleaned (candidate : jsstring) : jsstring :=
  strip_close_fence (strip_open_fence (trim candidate)).

(** The validation: starts with an opening brace and parses. *)
Definition accepted (text : jsstring) : bool :=
  startsWith [LBRACE] text && JSON_parse text.

(** A candidate line that holds an object in a fence: white space, the
    opening fence and white space after it (when [opening]), the text of the
    object, white space and the closing fence (when [closing]), white
    space. *)
Definition fenced_line (lead : jsstring) (opening : bool) (gap1 obj gap2 : jsstring)
    (closing : bool) (trail : jsstring) : jsstring :=
  lead ++ ((if opening then OPEN_FENCE ++ gap1 else [])
           ++ obj ++ (if closing then gap2 ++ CLOSE_FENCE else [])) ++ trail.

(** What a candidate contributes to the response body. *)
Definition emitted (candidate : jsstring) : option jsstring :=
  if accepted (cleaned candidate) then Some (cleaned candidate ++ [LF]) else None.

(** *** The buffer against the text received so far *)

(** The newline-terminated lines of a text, and what follows the last
    newline. *)
Fixpoint split_lines (text : jsstring) : list jsstring * jsstring :=
  match text with
  | [] => ([], [])
  | c :: text' =>
    let '(ls, r) := split_lines text' in
    if c =? LF then ([] :: ls, r)
    else match ls with
         | [] => ([], c :: r)
         | l :: ls' => ((c :: l) :: ls', r)
         end
  end.

Definition process_lines (st : loop_state) (ls : list jsstring) : loop_state :=
  foldl (fun st l => process_line (trim l) st) st ls.

End Framing.


(** ** The request, the configuration and the two providers *)

(** A request, as far as the handler reads it: [req.body], undefined when
    no body was parsed. *)
Record request := { body : jsval }.

(** Line 62: the two fields taken out of a body that is neither undefined
    nor null. *)
Definition topic (req : request) : jsval := get (lit "topic") (body req).
Definition context (req : request) : jsval := get (lit "context") (body req).

(** JavaScript truthiness. *)
Definition truthy (v : jsval) : bool :=
  match v with
  | JUndefined | JNull => false
  | JBool b => b
  | JNumber x => negb (PrimFloat.eqb x 0 || PrimFloat.is_nan x)
  | JString s => match s with [] => false | _ :: _ => true end
  | JArray _ | JObject _ => true
  end.

(** [process.env]. *)
Abbreviation environment := (gmap string jsstring).

(** [process.env.NAME] as a condition: set, and not the empty string. *)
Definition env_set (env : environment) (name : string) : bool :=
  match env !! name with
  | Some (_ :: _) => true
  | _ => false
  end.

(** [process.env.NAME || fallback] *)
Definition env_or (env : environment) (name : string) (fallback : jsstring)
  : jsstring :=
  match env !! name with
  | Some ((_ :: _) as v) => v
  | _ => fallback
  end.

(** A chunk of the Gemini stream: its optional [usageMetadata] and the
    result of [chunk.text()]. *)
Record gemini_usage := { promptTokenCount : number; candidatesTokenCount : number }.
Record gemini_chunk := { usageMetadata : option gemini_usage; text : jsstring }.

(** A chunk of the OpenAI stream: its optional [usage] and
    [choices[0]?.delta?.content], [None] when that is undefined or null. *)
Record openai_usage := { prompt_tokens : number; completion_tokens : number }.
Record openai_chunk := { usage : option openai_usage; delta_content : option jsstring }.

(** What an upstream call does: it rejects, or it delivers chunks and then
    ends, normally or by raising. *)
Inductive upstream (A : Type) :=
| Rejected (err : jsstring)
| Streaming (chunks : list A) (failure : option jsstring).
Arguments Rejected {A} err.
Arguments Streaming {A} chunks failure.

(** The answers the two providers would give to this request. *)
Record world := {
  gemini_api : upstream gemini_chunk;
  openai_api : upstream openai_chunk
}.

(** The adapters are generators; what one does between two suspensions is a
    sequence of these steps. *)
Inductive step :=
| Update (u : usage_summary)
| Yield (content : jsstring).

(** Lines 119-127. *)
Definition gemini_steps (chunk : gemini_chunk) : list step :=
  match usageMetadata chunk with
  | Some m => [Update {| inputTokens := promptTokenCount m;
                         outputTokens := candidatesTokenCount m |}]
  | None => []
  end ++ [Yield (text chunk)].

Definition gemini_iterator (chunks : list gemini_chunk) : list step :=
  chunks ≫= gemini_steps.

(** Lines 172-181. *)
Definition openai_steps (chunk : openai_chunk) : list step :=
  match usage chunk with
  | Some m => [Update {| inputTokens := prompt_tokens m;
                         outputTokens := completion_tokens m |}]
  | None => []
  end ++
  match delta_content chunk with
  | Some ((_ :: _) as content) => [Yield content]
  | _ => []
  end.

Definition openai_iterator (chunks : list openai_chunk) : list step :=
  chunks ≫= openai_steps.

(** The fragments an iterator yields. *)
Definition yielded (steps : list step) : list jsstring :=
  omap (fun s => match s with Yield c => Some c | Update _ => None end) steps.

(** The usage assignments an iterator makes. *)
Definition updates (steps : list step) : list usage_summary :=
  omap (fun s => match s with Update u => Some u | Yield _ => None end) steps.

Definition GEMINI : jsstring := lit "gemini".
Definition OPENAI : jsstring := lit "openai".

(** The branch taken by [if (provider === 'gemini')]. *)
Definition branch (provider_name : jsstring) : provider :=
  if bool_decide (provider_name = GEMINI) then Gemini else OpenAI.

Definition api_key_var (p : provider) : string :=
  match p with Gemini => "GEMINI_API_KEY" | OpenAI => "OPENAI_API_KEY" end.

Definition model_var (p : provider) : string :=
  match p with Gemini => "GEMINI_MODEL" | OpenAI => "OPENAI_MODEL" end.

Definition default_model (p : provider) : jsstring :=
  match p with Gemini => lit "gemini-2.5-flash" | OpenAI => lit "gpt-5.2" end.

Definition input_cost_var (p : provider) : string :=
  match p with
  | Gemini => "GEMINI_INPUT_COST_PER_MILLION"
  | OpenAI => "OPENAI_INPUT_COST_PER_MILLION"
  end.

Definition output_cost_var (p : provider) : string :=
  match p with
  | Gemini => "GEMINI_OUTPUT_COST_PER_MILLION"
  | OpenAI => "OPENAI_OUTPUT_COST_PER_MILLION"
  end.

Definition default_input_cost (p : provider) : jsstring :=
  match p with Gemini => lit "0.10" | OpenAI => lit "2.50" end.

Definition default_output_cost (p : provider) : jsstring :=
  match p with Gemini => lit "0.40" | OpenAI => lit "10.00" end.

(** The upstream call of a branch, seen through its adapter. *)
Definition open_stream (w : world) (p : provider) : upstream step :=
  match p with
  | Gemini =>
    match gemini_api w with
    | Rejected err => Rejected err
    | Streaming chunks failure => Streaming (gemini_iterator chunks) failure
    end
  | OpenAI =>
    match openai_api w with
    | Rejected err => Rejected err
    | Streaming chunks failure => Streaming (openai_iterator chunks) failure
    end
  end.

(** Lines 71-74: the prior concepts that go into the prompt. *)
Definition exclusions (context : jsval) : option (list jsval) :=
  match context with
  | JArray ((_ :: _) as items) => Some items
  | _ => None
  end.

(** Line 73: [context.join(', ')] converts every item to a string, and
    throws when one of them has no conversion. *)
Definition contextString_throws (context : jsval) : bool :=
  match exclusions context with
  | Some items => existsb toString_throws items
  | None => false
  end.

(** Lines 60-64: the effects up to the topic check, and the TypeError that
    cuts them short when one is thrown: by the destructuring of line 62, by
    the topic in the template literal of line 63, or by [context.length] in
    that of line 64. *)
Definition preamble (req : request) : trace * option type_error :=
  let t := [Log LInfo ReceivedRequest] in
  match body req with
  | JUndefined | JNull => (t, Some (NotDestructurable (body req)))
  | _ =>
    if toString_throws (topic req) then (t, Some NotConvertible)
    else
      let t := t ++ [Log LInfo (RequestTopic (topic req))] in
      if truthy (context req) then
        if toString_throws (length_of (context req))
        then (t, Some NotConvertible)
        else (t ++ [Log LInfo (ContextProvided (length_of (context req)))], None)
      else (t, None)
  end.

(** The request gets past line 74: nothing is thrown up to there and the
    topic is there. *)
Definition validated (req : request) : bool :=
  match (preamble req).2 with
  | None => truthy (topic req) && negb (contextString_throws (context req))
  | Some _ => false
  end.

(** ** The handler *)

Section Handler.

(** [JSON.parse] and [parseFloat] of the runtime, and the [message] the
    engine gives its TypeErrors. *)
Variable JSON_parse : jsstring -> bool.
Variable parseFloat : jsstring -> number.
Variable TypeError_message : type_error -> jsstring.

(** Lines 191-219 with the adapter's bookkeeping interleaved as it runs. *)
Definition run_step (st : loop_state) (s : step) : loop_state :=
  match s with
  | Update u => set_providerUsage u st
  | Yield content => on_content JSON_parse content st
  end.

Definition run_steps (st : loop_state) (steps : list step) : loop_state :=
  foldl run_step st steps.

(** Lines 262-269: the [catch] of the handler, entered after the effects
    [t]. *)
Definition catch_block (t : trace) (err : jsstring) : trace :=
  t ++ [Log LError (CriticalError err)] ++
  if headersSent t then [ResEnd]
  else [SetStatus 500;
        SendJson (ErrorDetails (lit "Failed to generate flashcards") err)].

(** The two rates of a branch, lines 243-249. *)
Definition cost_rates (env : environment) (p : provider) : number * number :=
  (parseFloat (env_or env (input_cost_var p) (default_input_cost p)),
   parseFloat (env_or env (output_cost_var p) (default_output_cost p))).

(** Lines 239-260.  [toFixed(6)] only formats the total, which the message
    carries as a number. *)
Definition log_cost (env : environment) (name : jsstring)
    (u : usage_summary) : trace :=
  if (0 <? inputTokens u)%float || (0 <? outputTokens u)%float then
    let '(inputCostPerM, outputCostPerM) := cost_rates env (branch name) in
    let inputCost := (inputTokens u / 1000000 * inputCostPerM)%float in
    let outputCost := (outputTokens u / 1000000 * outputCostPerM)%float in
    let totalCost := (inputCost + outputCost)%float in
    [Log LInfo (CostProvider name);
     Log LInfo (CostUsage (inputTokens u) (outputTokens u));
     Log LInfo (CostEstimated totalCost)]
  else [Log LWarn UsageNotCollected].

(** Lines 187-219: the loop state when the iterator is exhausted or raises,
    [t] being what happened before the stream was opened. *)
Definition stream_state (t : trace) (steps : list step) : loop_state :=
  run_steps
    {| buffer := []; firstChunkReceived := false; cardCount := O;
       providerUsage := {| inputTokens := 0; outputTokens := 0 |};
       effects := t ++ [Log LInfo StreamStarted] |}
    steps.

(** Lines 184-260: the stream is open. *)
Definition relay (env : environment) (name : jsstring) (t : trace)
    (steps : list step) (failure : option jsstring) : trace :=
  let st := stream_state t steps in
  match failure with
  | Some err => catch_block (effects st) err
  | None =>
    let st := flush_buffer JSON_parse st in
    effects st ++ [ResEnd; Log LInfo StreamCompleted]
      ++ log_cost env name (providerUsage st)
  end.

(** Line 76. *)
Definition provider_name (env : environment) : jsstring :=
  env_or env "AI_PROVIDER" OPENAI.

(** Lines 60-88 and 131, for a request that gets that far: up to the key
    check of the branch taken. *)
Definition before_key_check (env : environment) (req : request) : trace :=
  (preamble req).1 ++
  [Log LInfo (SelectedProvider (provider_name env));
   SetHeader (lit "Content-Type") (lit "text/plain; charset=utf-8");
   SetHeader (lit "Transfer-Encoding") (lit "chunked");
   Log LDebug (CheckingKey (branch (provider_name env)))].

(** Lines 95-116 and 137-169: the upstream call of the branch taken. *)
Definition before_stream (env : environment) (req : request) : trace :=
  let p := branch (provider_name env) in
  let model := env_or env (model_var p) (default_model p) in
  before_key_check env req ++
  [Log LInfo (CallingApi p model);
   UpstreamCall p model (topic req) (exclusions (context req))].

(** Lines 59-270. *)
Definition handler (env : environment) (w : world) (req : request) : trace :=
  match preamble req with
  | (t, Some e) => catch_block t (TypeError_message e)
  | (t, None) =>
    if negb (truthy (topic req)) then
      t ++
      [Log LWarn TopicMissing; SetStatus 400;
       SendJson (ErrorBody (lit "Topic is required"))]
    else if contextString_throws (context req) then
      catch_block t (TypeError_message NotConvertible)
    else
      let p := branch (provider_name env) in
      if negb (env_set env (api_key_var p)) then
        catch_block (before_key_check env req ++ [Log LError (KeyNotSet p)])
          (lit (api_key_var p) ++ lit " missing")
      else
        match open_stream w p with
        | Rejected err => catch_block (before_stream env req) err
        | Streaming steps failure =>
          relay env (provider_name env) (before_stream env req) steps failure
        end
  end.

(** *** The response as the caller sees it *)

(** The status code: 200 unless [res.status] was called. *)
Definition status_code (t : trace) : nat :=
  default 200%nat
    (last (omap (fun e => match e with SetStatus c => Some c | _ => None end) t)).

(** The JSON bodies sent. *)
Definition json_sent (t : trace) : list json_body :=
  omap (fun e => match e with SendJson b => Some b | _ => None end) t.

(** The messages logged at level [error]. *)
Definition errors (t : trace) : list message :=
  omap (fun e => match e with Log LError m => Some m | _ => None end) t.

(** The handler gets as far as the stream: the request gets past line 74,
    nothing being thrown and the topic being there, the key of the branch
    taken is set, and the upstream call delivers [steps] through its adapter
    and then ends as [failure] says. *)
Definition streams (env : environment) (w : world) (req : request)
    (steps : list step) (failure : option jsstring) : Prop :=
  validated req = true
  /\ env_set env (api_key_var (branch (provider_name env))) = true
  /\ open_stream w (branch (provider_name env)) = Streaming steps failure.

End Handler.

(** Effects that leave the status, the JSON body, the error log and the
    upstream alone. *)
Definition harmless (e : effect) : bool :=
  match e with
  | Log LError _ | SetStatus _ | SendJson _ | UpstreamCall _ _ _ _ => false
  | _ => true
  end.

(** *** The usage summary and the cost estimate as the specification words
    them *)

Definition zero_usage : usage_summary :=
  {| inputTokens := 0; outputTokens := 0 |}.

(** The metadata a chunk carries, as a usage summary. *)
Definition gemini_metadata (chunk : gemini_chunk) : option usage_summary :=
  (fun m => {| inputTokens := promptTokenCount m;
               outputTokens := candidatesTokenCount m |}) <$> usageMetadata chunk.

Definition openai_metadata (chunk : openai_chunk) : option usage_summary :=
  (fun m => {| inputTokens := prompt_tokens m;
               outputTokens := completion_tokens m |}) <$> usage chunk.

(** [CostEstimate]: [inputCost = inputTokens/1e6 * inputRate],
    [outputCost = outputTokens/1e6 * outputRate],
    [totalCost = inputCost + outputCost]. *)
Record CostEstimate := {
  inputCost : number;
  outputCost : number;
  totalCost : number
}.

Definition estimate (u : usage_summary) (inputRate outputRate : number)
  : CostEstimate :=
  let inputCost := (inputTokens u / 1000000 * inputRate)%float in
  let outputCost := (outputTokens u / 1000000 * outputRate)%float in
  {| inputCost := inputCost; outputCost := outputCost;
     totalCost := (inputCost + outputCost)%float |}.


(** *** Views of a run *)

(** The effects the framing loop performs: logs below [error] and writes. *)
Definition is_framing (e : effect) : bool :=
  match e with
  | Log LDebug _ | Log LInfo _ | Log LWarn _ | ResWrite _ => true
  | _ => false
  end.

(** The effects of the loop proper, lines 201-218. *)
Definition is_loop_effect (e : effect) : bool :=
  match e with
  | Log LDebug (ProcessingLine _) | Log LInfo (ParsedCard _)
  | Log LWarn (SkippingInvalid _) | ResWrite _ => true
  | _ => false
  end.

(** A line logged at level [info]. *)
Definition is_info_log (e : effect) : bool :=
  match e with
  | Log LInfo _ => true
  | _ => false
  end.

(** The effects that act on [res]. *)
Definition on_response (e : effect) : bool :=
  match e with
  | Log _ _ | UpstreamCall _ _ _ _ => false
  | _ => true
  end.

(** What a run does to [res], in order. *)
Definition response_part (t : trace) : trace := List.filter on_response t.

(** The two headers of lines 80-81. *)
Definition STREAM_HEADERS : trace :=
  [SetHeader (lit "Content-Type") (lit "text/plain; charset=utf-8");
   SetHeader (lit "Transfer-Encoding") (lit "chunked")].

(** The card numbers the [Successfully parsed] lines carry, in order. *)
Definition card_numbers (t : trace) : list nat :=
  omap (fun e => match e with
                 | Log LInfo (ParsedCard n) | Log LInfo (ParsedFinalCard n) => Some n
                 | _ => None
                 end) t.

(** One NDJSON record: a text that starts with an opening brace and parses,
    followed by the only newline of the chunk. *)
Definition ndjson_line (JSON_parse : jsstring -> bool) (d : jsstring) : Prop :=
  exists c, d = c ++ [LF] /\ (LF ∉ c)
            /\ startsWith [LBRACE] c = true /\ JSON_parse c = true.

(** The counter is the number of chunks written, and the numbers logged
    count up from one. *)
Definition counted (st : loop_state) : Prop :=
  cardCount st = length (writes (effects st))
  /\ card_numbers (effects st) = seq 1 (cardCount st).

(** The warning a candidate line gets in the loop, and the one the final
    buffer gets: for a text that starts with an opening brace once cleaned and
    does not parse. *)
Definition loop_warning (JSON_parse : jsstring -> bool) (l : jsstring)
  : option message :=
  if startsWith [LBRACE] (cleaned l) && negb (JSON_parse (cleaned l))
  then Some (SkippingInvalid (substring0 50 (trim l))) else None.

Definition final_warning (JSON_parse : jsstring -> bool) (r : jsstring)
  : option message :=
  if startsWith [LBRACE] (cleaned r) && negb (JSON_parse (cleaned r))
  then Some (FinalBufferInvalid (substring0 50 r)) else None.

(** The NDJSON text of a list of records: each followed by a newline. *)
Definition ndjson (records : list jsstring) : jsstring :=
  concat ((fun r => r ++ [LF]) <$> records).

(** The text of an object on one line that [JSON.parse] accepts. *)
Definition record_text (JSON_parse : jsstring -> bool) (r : jsstring) : Prop :=
  (exists body, r = LBRACE :: body ++ [RBRACE])
  /\ indexOf LF r = None /\ JSON_parse r = true.

(** The request gets past line 74 and the key of the branch taken is
    set. *)
Definition reaches_upstream (env : environment) (req : request) : bool :=
  validated req && env_set env (api_key_var (branch (provider_name env))).

(** The [PERF] line, logged in the first turn of the loop. *)
Definition first_chunk_log (fragments : list jsstring) : trace :=
  match fragments with
  | [] => []
  | _ :: _ => [Log LInfo FirstContentChunk]
  end.

(** The text carries no surrounding white space. *)
Definition trimmed (s : jsstring) : Prop :=
  s = [] \/ (starts_solid s = true /\ starts_solid (rev s) = true).

(** ** Inputs to run the handler on *)

(** The messages V8 gives the two TypeErrors. *)
Definition v8_message (e : type_error) : jsstring :=
  match e with
  | NotDestructurable JNull =>
    lit "Cannot destructure property 'topic' of 'req.body' as it is null."
  | NotDestructurable _ =>
    lit "Cannot destructure property 'topic' of 'req.body' as it is undefined."
  | NotConvertible => lit "Cannot convert object to primitive value"
  end.

Module Demo.

Definition card1 : jsstring := js "{'front':'Q1','back':'A1','code':''}".
Definition card2 : jsstring := js "{'front':'Q2','back':'A2','code':''}".
Definition malformed : jsstring := lit "not json".

(** Two cards with a malformed line between them. *)
Definition received : jsstring := card1 ++ LF :: malformed ++ LF :: card2 ++ [LF].

(** A text as fragments of one code unit each. *)
Definition one_by_one (s : jsstring) : list jsstring := (fun c => [c]) <$> s.

Definition gemini_env : environment :=
  {[ "AI_PROVIDER" := lit "gemini"; "GEMINI_API_KEY" := lit "secret" ]}.

Definition openai_env : environment :=
  {[ "OPENAI_API_KEY" := lit "secret" ]}.

Definition keyless_env : environment :=
  {[ "AI_PROVIDER" := lit "gemini" ]}.

(** Gemini delivers [received] in three chunks, the last with the metering. *)
Definition gemini_chunks : list gemini_chunk :=
  [ {| usageMetadata := None; text := take 20 received |};
    {| usageMetadata := None; text := take 30 (drop 20 received) |};
    {| usageMetadata :=
         Some {| promptTokenCount := 1000; candidatesTokenCount := 500 |};
       text := drop 50 received |} ].

(** OpenAI delivers one card, and never any usage. *)
Definition openai_chunks : list openai_chunk :=
  [ {| usage := None; delta_content := Some card1 |};
    {| usage := None; delta_content := None |} ].

Definition world1 : world :=
  {| gemini_api := Streaming gemini_chunks None;
     openai_api := Streaming openai_chunks None |}.

(** [{"topic": "Rocq"}] *)
Definition request1 : request :=
  {| body := JObject [(lit "topic", JString (lit "Rocq"))] |}.



(** [{"topic": {"toString": 1}}]: a topic with no conversion to a string. *)
Definition request_with_odd_topic : request :=
  {| body := JObject [(lit "topic", JObject [(lit "toString", JNumber 1)])] |}.

(** [{"topic": "Rocq", "context": ["lists", {"toString": 1}]}]: an item of
    the context with no conversion to a string. *)
Definition request_with_odd_item : request :=
  {| body := JObject [(lit "topic", JString (lit "Rocq"));
                      (lit "context",
                       JArray [JString (lit "lists");
                               JObject [(lit "toString", JNumber 1)]])] |}.

(** No body was parsed. *)
Definition request_without_body : request := {| body := JUndefined |}.

End Demo.

(** ** Upstreams that fail *)

Module Failing.

(** The stream raises after one whole card and the start of the next. *)
Definition cut_world : world :=
  {| gemini_api :=
       Streaming
         [ {| usageMetadata := None; text := Demo.card1 ++ [LF] |};
           {| usageMetadata := None; text := take 12 Demo.card2 |} ]
         (Some (lit "socket hang up"));
     openai_api := Rejected (lit "unused") |}.

(** The stream raises before any line is complete. *)
Definition early_cut_world : world :=
  {| gemini_api :=
       Streaming [ {| usageMetadata := None; text := take 12 Demo.card1 |} ]
         (Some (lit "socket hang up"));
     openai_api := Rejected (lit "unused") |}.

(** The same chunks as [cut_world], and then the end of the stream. *)
Definition uncut_world : world :=
  {| gemini_api :=
       Streaming
         [ {| usageMetadata := None; text := Demo.card1 ++ [LF] |};
           {| usageMetadata := None; text := take 12 Demo.card2 |} ]
         None;
     openai_api := Rejected (lit "unused") |}.

(** OpenAI delivers the text of [Demo.received] in two deltas around an
    empty one, and the metering in a chunk of its own. *)
Definition openai_world : world :=
  {| gemini_api := Rejected (lit "unused");
     openai_api :=
       Streaming
         [ {| usage := None; delta_content := Some (take 7 Demo.received) |};
           {| usage := None; delta_content := Some [] |};
           {| usage := None; delta_content := Some (drop 7 Demo.received) |};
           {| usage := Some {| prompt_tokens := 12; completion_tokens := 34 |};
              delta_content := None |} ]
         None |}.

(** The call itself is rejected. *)
Definition rejecting_world : world :=
  {| gemini_api := Rejected (lit "429 Too Many Requests");
     openai_api := Rejected (lit "429 Too Many Requests") |}.

End Failing.

(** * Properties *)

(** ** Strings *)

Lemma dropWhile_app_all p (a b : jsstring) :
  forallb p a = true -> dropWhile p (a ++ b) = dropWhile p b.
Proof.
  induction a as [|c a IH]; simpl; [done|].
  intros [-> Ha]%andb_true_iff. by apply IH.
Qed.

Lemma forallb_rev p (a : jsstring) : forallb p (rev a) = forallb p a.
Proof.
  induction a as [|c a IH]; simpl; [done|].
  rewrite forallb_app, IH. simpl. rewrite andb_true_r. apply andb_comm.
Qed.

(** Trimming removes the white space around a text that neither starts nor
    ends with white space. *)
Lemma trim_padded (lead x trail : jsstring) :
  forallb is_space lead = true -> forallb is_space trail = true ->
  starts_solid x = true -> starts_solid (rev x) = true ->
  trim (lead ++ x ++ trail) = x.
Proof.
  intros Hl Ht Hx Hr. unfold trim, trimStart, trimEnd.
  rewrite dropWhile_app_all by done.
  assert (forall y rest, starts_solid y = true ->
            dropWhile is_space (y ++ rest) = y ++ rest) as Hsolid.
  { intros [|c y] rest Hy; [done|]. simpl in *.
    by destruct (is_space c). }
  rewrite Hsolid by done.
  rewrite rev_app_distr, dropWhile_app_all by (by rewrite forallb_rev).
  rewrite <- (app_nil_r (rev x)), Hsolid by done.
  by rewrite app_nil_r, rev_involutive.
Qed.

Lemma strip_open_fence_fenced gap (x : jsstring) :
  forallb is_space gap = true -> starts_solid x = true ->
  strip_open_fence (OPEN_FENCE ++ gap ++ x) = x.
Proof.
  intros Hg Hx.
  change (strip_open_fence (OPEN_FENCE ++ gap ++ x))
    with (dropWhile is_space (gap ++ x)).
  rewrite dropWhile_app_all by done.
  destruct x as [|c x]; [done|]. simpl in *. by destruct (is_space c).
Qed.

Lemma strip_open_fence_object (rest : jsstring) :
  strip_open_fence (LBRACE :: rest) = LBRACE :: rest.
Proof. reflexivity. Qed.

Lemma strip_close_fence_fenced gap (front : jsstring) :
  forallb is_space gap = true ->
  strip_close_fence ((front ++ [RBRACE]) ++ gap ++ CLOSE_FENCE) =
  front ++ [RBRACE].
Proof.
  intros Hg. unfold strip_close_fence.
  rewrite !rev_app_distr. simpl.
  rewrite dropWhile_app_all by (by rewrite forallb_rev).
  simpl. by rewrite rev_involutive.
Qed.

Lemma strip_close_fence_object (front : jsstring) :
  strip_close_fence (front ++ [RBRACE]) = front ++ [RBRACE].
Proof. unfold strip_close_fence. by rewrite rev_app_distr. Qed.

(** Trimming and stripping a fenced line leaves the object. *)
Lemma cleaned_fenced_line lead opening gap1 body gap2 closing trail :
  forallb is_space lead = true -> forallb is_space gap1 = true ->
  forallb is_space gap2 = true -> forallb is_space trail = true ->
  cleaned (fenced_line lead opening gap1 (LBRACE :: body ++ [RBRACE]) gap2
             closing trail) =
  LBRACE :: body ++ [RBRACE].
Proof.
  intros Hl H1 H2 Ht. unfold cleaned, fenced_line.
  set (obj := LBRACE :: body ++ [RBRACE]).
  rewrite trim_padded; try done.
  2: { by destruct opening. }
  2: { rewrite !rev_app_distr. destruct closing.
       - by rewrite rev_app_distr.
       - subst obj. simpl. by rewrite rev_app_distr. }
  assert (strip_open_fence
            ((if opening then OPEN_FENCE ++ gap1 else []) ++ obj ++
             (if closing then gap2 ++ CLOSE_FENCE else [])) =
          obj ++ (if closing then gap2 ++ CLOSE_FENCE else [])) as ->.
  { destruct opening; subst obj.
    - rewrite <- app_assoc. by rewrite strip_open_fence_fenced.
    - reflexivity. }
  subst obj. change (LBRACE :: body ++ [RBRACE]) with ((LBRACE :: body) ++ [RBRACE]).
  destruct closing.
  - by rewrite strip_close_fence_fenced.
  - by rewrite app_nil_r, strip_close_fence_object.
Qed.

(** ** Traces *)

Lemma writes_app (t t' : trace) : writes (t ++ t') = writes t ++ writes t'.
Proof. apply omap_app. Qed.

Lemma warnings_app (t t' : trace) :
  warnings (t ++ t') = warnings t ++ warnings t'.
Proof. apply omap_app. Qed.

Lemma headersSent_app t t' :
  headersSent (t ++ t') = headersSent t || headersSent t'.
Proof. apply existsb_app. Qed.

Lemma effects_perform e st : effects (perform e st) = effects st ++ [e].
Proof. reflexivity. Qed.

Lemma effects_incr_cardCount st : effects (incr_cardCount st) = effects st.
Proof. reflexivity. Qed.

Lemma writes_log lv m : writes [Log lv m] = [].
Proof. reflexivity. Qed.

Lemma writes_write d : writes [ResWrite d] = [d].
Proof. reflexivity. Qed.

Create Rewrite HintDb trace_db.
#[global] Hint Rewrite effects_perform effects_incr_cardCount writes_app
  writes_log writes_write @app_nil_r : trace_db.

Ltac norm_writes := cbv zeta; autorewrite with trace_db.

Lemma warnings_log_warn m : warnings [Log LWarn m] = [m].
Proof. reflexivity. Qed.

Lemma warnings_write d : warnings [ResWrite d] = [].
Proof. reflexivity. Qed.

Lemma warnings_log_debug m : warnings [Log LDebug m] = [].
Proof. reflexivity. Qed.

Lemma warnings_log_info m : warnings [Log LInfo m] = [].
Proof. reflexivity. Qed.

#[global] Hint Rewrite warnings_app warnings_log_warn warnings_write
  warnings_log_debug warnings_log_info : trace_db.

(** ** The framing parser *)

Section FramingFacts.
Variable JSON_parse : jsstring -> bool.

Lemma process_line_buffer line st :
  buffer (process_line JSON_parse line st) = buffer st.
Proof.
  unfold process_line. destruct line; [done|].
  repeat case_match; reflexivity.
Qed.


Lemma split_lines_no_newline (b : jsstring) :
  indexOf LF b = None -> split_lines b = ([], b).
Proof.
  induction b as [|c b IH]; simpl; [done|].
  destruct (c =? LF) eqn:E; [done|].
  destruct (indexOf LF b); [done|]. intros _. by rewrite IH.
Qed.

Lemma split_lines_newline (b : jsstring) i :
  indexOf LF b = Some i ->
  split_lines b =
    (slice_to i b :: (split_lines (slice_from (S i) b)).1,
     (split_lines (slice_from (S i) b)).2).
Proof.
  revert i. induction b as [|c b IH]; simpl; intros i H; [done|].
  destruct (c =? LF) eqn:E.
  - simplify_eq/=. by destruct (split_lines b).
  - destruct (indexOf LF b) as [j|]; simplify_eq/=.
    rewrite (IH j eq_refl). reflexivity.
Qed.

Lemma process_line_set_buffer line b st :
  process_line JSON_parse line (set_buffer b st) =
  set_buffer b (process_line JSON_parse line st).
Proof.
  unfold process_line. destruct line; [done|].
  repeat case_match; reflexivity.
Qed.

Lemma process_lines_set_buffer ls b st :
  process_lines JSON_parse (set_buffer b st) ls =
  set_buffer b (process_lines JSON_parse st ls).
Proof.
  revert st. induction ls as [|l ls IH]; intros st; simpl; [done|].
  by rewrite process_line_set_buffer, IH.
Qed.

Lemma set_buffer_set_buffer b b' st :
  set_buffer b (set_buffer b' st) = set_buffer b st.
Proof. reflexivity. Qed.

Lemma drain_spec st :
  drain JSON_parse st =
    set_buffer (split_lines (buffer st)).2
      (process_lines JSON_parse st (split_lines (buffer st)).1).
Proof.
  funelim (drain JSON_parse st).
  - match goal with IH : drain _ _ = set_buffer _ _ |- _ => rewrite IH end.
    rewrite process_line_buffer. simpl buffer.
    rewrite (split_lines_newline _ _ H). simpl.
    rewrite process_line_set_buffer, process_lines_set_buffer.
    reflexivity.
  - rewrite split_lines_no_newline by done. simpl. by destruct st.
Qed.

Lemma split_lines_app (a b : jsstring) :
  split_lines (a ++ b) =
    ((split_lines a).1 ++ (split_lines ((split_lines a).2 ++ b)).1,
     (split_lines ((split_lines a).2 ++ b)).2).
Proof.
  induction a as [|c a IH]; simpl.
  - by destruct (split_lines b).
  - rewrite IH. destruct (split_lines a) as [la ra]; simpl.
    destruct (c =? LF) eqn:E; [done|].
    destruct la as [|l la]; simpl; [|done].
    rewrite E. destruct (split_lines (ra ++ b)) as [lb rb]; simpl.
    by destruct lb.
Qed.

Lemma candidate_lines_split (text : jsstring) :
  candidate_lines text = (split_lines text).1 ++ [(split_lines text).2].
Proof.
  induction text as [|c text IH]; simpl; [done|].
  rewrite IH. destruct (split_lines text) as [ls r]; simpl.
  destruct (c =? LF); [done|]. by destruct ls.
Qed.

Lemma process_lines_first ls st :
  firstChunkReceived (process_lines JSON_parse st ls) = firstChunkReceived st.
Proof.
  revert st. induction ls as [|l ls IH]; intros st; simpl; [done|].
  rewrite IH. unfold process_line. destruct (trim l); [done|].
  repeat case_match; reflexivity.
Qed.

Lemma process_lines_buffer ls st :
  buffer (process_lines JSON_parse st ls) = buffer st.
Proof.
  revert st. induction ls as [|l ls IH]; intros st; simpl; [done|].
  by rewrite IH, process_line_buffer.
Qed.

Lemma process_lines_app ls ls' st :
  process_lines JSON_parse st (ls ++ ls') =
  process_lines JSON_parse (process_lines JSON_parse st ls) ls'.
Proof. apply foldl_app. Qed.

Lemma first_chunk_buffer st : buffer (first_chunk st) = buffer st.
Proof. unfold first_chunk. by destruct (firstChunkReceived st). Qed.

Lemma first_chunk_first st : firstChunkReceived (first_chunk st) = true.
Proof. unfold first_chunk. by destruct (firstChunkReceived st) eqn:E. Qed.

Lemma first_chunk_cardCount st : cardCount (first_chunk st) = cardCount st.
Proof. unfold first_chunk. by destruct (firstChunkReceived st). Qed.

Lemma first_chunk_idem st : firstChunkReceived st = true -> first_chunk st = st.
Proof. unfold first_chunk. by intros ->. Qed.

(** The [PERF] line is logged once, in the first turn. *)
Lemma first_chunk_effects st :
  effects (first_chunk st) =
  effects st ++
  (if firstChunkReceived st then [] else [Log LInfo FirstContentChunk]).
Proof.
  unfold first_chunk. destruct (firstChunkReceived st); [|done].
  by rewrite app_nil_r.
Qed.

(** One turn of the loop: the lines completed by the new content are
    processed, what follows the last newline stays in the buffer. *)
Lemma on_content_spec content st :
  on_content JSON_parse content st =
    set_buffer (split_lines (buffer st ++ content)).2
      (process_lines JSON_parse (first_chunk st)
         (split_lines (buffer st ++ content)).1).
Proof.
  unfold on_content. cbv zeta. rewrite drain_spec.
  simpl buffer. rewrite first_chunk_buffer, process_lines_set_buffer.
  by rewrite set_buffer_set_buffer.
Qed.

(** The loop over a whole fragment sequence, from a state whose buffer may
    already hold text. *)
Lemma frame_from_spec fragments st :
  frame_from JSON_parse st fragments =
    match fragments with
    | [] => st
    | _ :: _ =>
      set_buffer (split_lines (buffer st ++ concat fragments)).2
        (process_lines JSON_parse (first_chunk st)
           (split_lines (buffer st ++ concat fragments)).1)
    end.
Proof.
  revert st. induction fragments as [|f fs IH]; intros st; [done|].
  change (frame_from JSON_parse st (f :: fs))
    with (frame_from JSON_parse (on_content JSON_parse f st) fs).
  rewrite IH, on_content_spec. destruct fs as [|f' fs].
  - simpl concat. by rewrite app_nil_r.
  - set (rest := concat (f' :: fs)).
    change (concat (f :: f' :: fs)) with (f ++ rest).
    rewrite (first_chunk_idem (set_buffer _ _)).
    2: { change (firstChunkReceived (set_buffer ?b ?x))
           with (firstChunkReceived x).
         by rewrite process_lines_first, first_chunk_first. }
    simpl buffer. rewrite (assoc_L (++)), (split_lines_app (buffer st ++ f) rest).
    simpl. rewrite process_lines_app, process_lines_set_buffer.
    reflexivity.
Qed.

(** *** What reaches the response body *)

Lemma cleaned_empty l : trim l = [] -> emitted JSON_parse l = None.
Proof. unfold emitted, cleaned. by intros ->. Qed.

Lemma writes_process_line l st :
  writes (effects (process_line JSON_parse (trim l) st)) =
  writes (effects st) ++ option_list (emitted JSON_parse l).
Proof.
  unfold process_line. destruct (trim l) as [|c line] eqn:Hl.
  - rewrite cleaned_empty by done. simpl. by rewrite app_nil_r.
  - unfold emitted, accepted, cleaned. rewrite Hl.
    destruct (startsWith _ _); [destruct (JSON_parse _)|];
      simpl andb; cbv iota; norm_writes; reflexivity.
Qed.

Lemma writes_process_lines ls st :
  writes (effects (process_lines JSON_parse st ls)) =
  writes (effects st) ++ omap (emitted JSON_parse) ls.
Proof.
  revert st. induction ls as [|l ls IH]; intros st; simpl.
  - by rewrite app_nil_r.
  - rewrite IH, writes_process_line, <- (assoc_L (++)).
    by destruct (emitted JSON_parse l).
Qed.

Lemma writes_flush_buffer st :
  writes (effects (flush_buffer JSON_parse st)) =
  writes (effects st) ++ option_list (emitted JSON_parse (buffer st)).
Proof.
  unfold flush_buffer. destruct (trim (buffer st)) as [|c line] eqn:Hl.
  - rewrite cleaned_empty by done. simpl. by rewrite app_nil_r.
  - unfold emitted, accepted, cleaned. rewrite Hl.
    destruct (startsWith _ _); [destruct (JSON_parse _)|];
      simpl andb; cbv iota; norm_writes; reflexivity.
Qed.

Lemma omap_emitted ls :
  omap (emitted JSON_parse) ls =
  (fun l => cleaned l ++ [LF])
    <$> List.filter (fun l => accepted JSON_parse (cleaned l)) ls.
Proof.
  induction ls as [|l ls IH]; csimpl; [done|].
  rewrite IH. unfold emitted. by destruct (accepted _ _).
Qed.

Lemma writes_first_chunk st : writes (effects (first_chunk st)) = writes (effects st).
Proof.
  rewrite first_chunk_effects, writes_app.
  destruct (firstChunkReceived st); by rewrite app_nil_r.
Qed.

Lemma writes_flush_frame_from st fragments :
  buffer st = [] ->
  writes (effects (flush_buffer JSON_parse (frame_from JSON_parse st fragments))) =
  writes (effects st) ++
  omap (emitted JSON_parse) (candidate_lines (concat fragments)).
Proof.
  intros Hb. rewrite writes_flush_buffer, frame_from_spec.
  rewrite candidate_lines_split, omap_app, Hb.
  destruct fragments as [|f fs].
  - rewrite ?Hb. reflexivity.
  - simpl buffer. simpl effects at 1.
    rewrite writes_process_lines, writes_first_chunk, <- app_assoc. do 2 f_equal.
Qed.

Lemma candidate_lines_line (l rest : jsstring) :
  indexOf LF l = None ->
  candidate_lines (l ++ LF :: rest) = l :: candidate_lines rest.
Proof.
  induction l as [|c l IH]; simpl; [done|].
  destruct (c =? LF) eqn:E; [done|].
  destruct (indexOf LF l); [done|]. intros _. by rewrite IH.
Qed.

Lemma candidate_lines_last (l : jsstring) :
  indexOf LF l = None -> candidate_lines l = [l].
Proof.
  induction l as [|c l IH]; simpl; [done|].
  destruct (c =? LF) eqn:E; [done|].
  destruct (indexOf LF l); [done|]. intros _. by rewrite IH.
Qed.

(** The body written for a fragment sequence, candidate by candidate. *)
Lemma writes_frame fragments :
  writes (effects (frame JSON_parse fragments)) =
  omap (emitted JSON_parse) (candidate_lines (concat fragments)).
Proof.
  unfold frame. by rewrite writes_flush_frame_from.
Qed.

Lemma process_lines_grow ls st :
  exists F, effects (process_lines JSON_parse st ls) = effects st ++ F.
Proof.
  revert st. induction ls as [|l ls IH]; intros st; simpl.
  { exists []. by rewrite app_nil_r. }
  destruct (IH (process_line JSON_parse (trim l) st)) as (F2 & ->).
  assert (exists F1, effects (process_line JSON_parse (trim l) st)
                     = effects st ++ F1) as (F1 & ->).
  { unfold process_line. destruct (trim l).
    { exists []. by rewrite app_nil_r. }
    repeat case_match; cbv zeta; autorewrite with trace_db;
      rewrite <- ?app_assoc; eexists; reflexivity. }
  exists (F1 ++ F2). by rewrite (assoc_L (++)).
Qed.

Lemma flush_buffer_grow st :
  exists F, effects (flush_buffer JSON_parse st) = effects st ++ F.
Proof.
  unfold flush_buffer. destruct (trim (buffer st)).
  { exists []. by rewrite app_nil_r. }
  repeat case_match; cbv zeta; autorewrite with trace_db;
    rewrite <- ?app_assoc;
    first [ by eexists | by exists []; rewrite app_nil_r ].
Qed.

(** What the parser does depends on the fragments through their
    concatenation only, the [PERF] line apart: that one is logged first
    whenever there is a fragment, be it empty. *)
Lemma frame_effects fragments :
  effects (frame JSON_parse fragments) =
  effects (flush_buffer JSON_parse
             (set_buffer (split_lines (concat fragments)).2
                (process_lines JSON_parse
                   (match fragments with
                    | [] => initial_state
                    | _ :: _ => first_chunk initial_state
                    end)
                   (split_lines (concat fragments)).1))).
Proof.
  unfold frame. rewrite frame_from_spec. by destruct fragments as [|f fs].
Qed.

Lemma frame_effects_first fragments :
  exists E, effects (frame JSON_parse fragments) = first_chunk_log fragments ++ E.
Proof.
  rewrite frame_effects. destruct fragments as [|f fs]; [by eexists|].
  destruct (flush_buffer_grow
              (set_buffer (split_lines (concat (f :: fs))).2
                 (process_lines JSON_parse (first_chunk initial_state)
                    (split_lines (concat (f :: fs))).1))) as (F2 & ->).
  cbn [effects set_buffer].
  destruct (process_lines_grow (split_lines (concat (f :: fs))).1
              (first_chunk initial_state)) as (F1 & ->).
  exists (F1 ++ F2). by rewrite <- app_assoc.
Qed.

(** C1: for every fragment sequence, the lines written to the response are
    exactly the candidate lines of the concatenated text (the substrings
    between consecutive newlines and the final remainder) whose cleaned
    form, after trimming and fence stripping, starts with an opening brace
    and parses as JSON; each is written as its cleaned text followed by one
    newline, in the order of the candidates, and nothing else is written. *)
Theorem frame_writes_accepted_candidates (fragments : list jsstring) :
  writes (effects (frame JSON_parse fragments)) =
  (fun l => cleaned l ++ [LF])
    <$> List.filter (fun l => accepted JSON_parse (cleaned l))
          (candidate_lines (concat fragments)).
Proof. by rewrite writes_frame, omap_emitted. Qed.

(** C2: two fragment sequences with the same concatenation make the parser
    write the same lines to the response in the same order.  All it does
    besides is the same too, in the same order, but for the [PERF] line,
    which is logged first by both when both have a fragment. *)
Theorem frame_fragmentation_agnostic (fragments1 fragments2 : list jsstring) :
  concat fragments1 = concat fragments2 ->
  writes (effects (frame JSON_parse fragments1)) =
  writes (effects (frame JSON_parse fragments2))
  /\ exists E,
       effects (frame JSON_parse fragments1) = first_chunk_log fragments1 ++ E
       /\ effects (frame JSON_parse fragments2) = first_chunk_log fragments2 ++ E.
Proof.
  intros Heq. split; [by rewrite !writes_frame, Heq|].
  destruct fragments1 as [|f1 fs1], fragments2 as [|f2 fs2].
  - by eexists.
  - exists []. rewrite (frame_effects (f2 :: fs2)), <- Heq. done.
  - exists []. rewrite (frame_effects (f1 :: fs1)), Heq. done.
  - destruct (frame_effects_first (f1 :: fs1)) as (E & H1). exists E.
    split; [done|]. etrans; [|exact H1].
    by rewrite !frame_effects, Heq.
Qed.

(** C3, as the code has it: a candidate line that is not empty after
    trimming and is not accepted is discarded, nothing being written for it.
    When its cleaned form starts with an opening brace (so parsing it
    failed) one warning is recorded, which quotes the first 50 code units of
    the trimmed line and no more; when its cleaned form does not start with
    an opening brace no warning is recorded. *)
Theorem rejected_line_discarded (l : jsstring) (st : loop_state) :
  trim l <> [] ->
  accepted JSON_parse (cleaned l) = false ->
  let st' := process_line JSON_parse (trim l) st in
  writes (effects st') = writes (effects st)
  /\ cardCount st' = cardCount st
  /\ warnings (effects st') =
       warnings (effects st) ++
       (if startsWith [LBRACE] (cleaned l)
        then [SkippingInvalid (substring0 50 (trim l))] else [])
  /\ (length (substring0 50 (trim l)) <= 50)%nat.
Proof.
  intros Hne Hrej st'. subst st'. unfold process_line.
  destruct (trim l) as [|c line] eqn:Hl; [done|].
  unfold accepted, cleaned in *. rewrite Hl in *.
  destruct (startsWith _ _); simpl in Hrej.
  - rewrite Hrej. norm_writes. repeat split; try done.
    unfold substring0. rewrite length_take. lia.
  - norm_writes. repeat split; try done.
    unfold substring0. rewrite length_take. lia.
Qed.

(** C4: what the final-buffer handling does with the text left in the
    buffer is what the in-loop processing does with that text as a candidate
    line: the same line is written or none, the card counter moves alike, and
    a warning is recorded in the same cases, namely when the cleaned text
    starts with an opening brace and does not parse.  The buffer is taken as
    one candidate whole: its contribution is that of a single candidate and
    the buffer is left as it is.  The two warnings differ in wording and in
    what they quote: the in-loop one the trimmed line, the final one the
    buffer before trimming. *)
Theorem flush_buffer_as_process_line (st : loop_state) :
  let text := buffer st in
  let final := flush_buffer JSON_parse st in
  let in_loop := process_line JSON_parse (trim text) st in
  let warned :=
    startsWith [LBRACE] (cleaned text) && negb (JSON_parse (cleaned text)) in
  writes (effects final) = writes (effects in_loop)
  /\ cardCount final = cardCount in_loop
  /\ warnings (effects in_loop) =
       warnings (effects st) ++
       (if warned then [SkippingInvalid (substring0 50 (trim text))] else [])
  /\ warnings (effects final) =
       warnings (effects st) ++
       (if warned then [FinalBufferInvalid (substring0 50 text)] else [])
  /\ writes (effects final) =
       writes (effects st) ++ option_list (emitted JSON_parse text)
  /\ buffer final = text.
Proof.
  intros text final in_loop warned. subst text final in_loop warned.
  split_and!.
  - by rewrite writes_flush_buffer, writes_process_line.
  - unfold flush_buffer, process_line.
    destruct (trim (buffer st)); [done|]. repeat case_match; reflexivity.
  - unfold process_line, cleaned.
    destruct (trim (buffer st)); [by rewrite app_nil_r|].
    destruct (startsWith _ _); [destruct (JSON_parse _)|];
      simpl andb; cbv iota; norm_writes; reflexivity.
  - unfold flush_buffer, cleaned.
    destruct (trim (buffer st)); [by rewrite app_nil_r|].
    destruct (startsWith _ _); [destruct (JSON_parse _)|];
      simpl andb; cbv iota; norm_writes; reflexivity.
  - apply writes_flush_buffer.
  - unfold flush_buffer. repeat case_match; reflexivity.
Qed.

(** The loop stops because no newline is left, and for no other reason. *)
Lemma drain_no_newline st : indexOf LF (buffer (drain JSON_parse st)) = None.
Proof. funelim (drain JSON_parse st); [assumption|done]. Qed.

(** When the iterator is exhausted the buffer holds no newline: the final
    handling has no complete line left to look for. *)
Lemma frame_from_no_newline fragments :
  indexOf LF (buffer (frame_from JSON_parse initial_state fragments)) = None.
Proof.
  rewrite frame_from_spec. destruct fragments as [|f fs]; [done|].
  simpl buffer. generalize (f ++ concat fs). clear.
  induction l as [|c l IH]; simpl; [done|].
  destruct (split_lines l) as [ls r]; simpl in *.
  destruct (c =? LF) eqn:E; [done|].
  destruct ls; simpl; [|done]. by rewrite E, IH.
Qed.

(** C9: a candidate line that holds an object between an opening fence
    tagged json, a closing fence, or both, with any white space around them,
    is cleaned to the text of the object; when the object parses it is
    written once, followed by a newline, the card counter moves by one and no
    warning is recorded.  The fences are gone from what is written: it has a
    backtick only if the object has one. *)
Theorem fenced_object_written_once (lead gap1 body gap2 trail : jsstring)
    (opening closing : bool) (st : loop_state) :
  forallb is_space lead = true -> forallb is_space gap1 = true ->
  forallb is_space gap2 = true -> forallb is_space trail = true ->
  JSON_parse (LBRACE :: body ++ [RBRACE]) = true ->
  let obj := LBRACE :: body ++ [RBRACE] in
  let line := fenced_line lead opening gap1 obj gap2 closing trail in
  let st' := process_line JSON_parse (trim line) st in
  cleaned line = obj
  /\ writes (effects st') = writes (effects st) ++ [obj ++ [LF]]
  /\ cardCount st' = S (cardCount st)
  /\ warnings (effects st') = warnings (effects st)
  /\ (BACKTICK ∉ body -> BACKTICK ∉ obj ++ [LF]).
Proof.
  intros Hl H1 H2 Ht Hparse obj line st'.
  assert (cleaned line = obj) as Hc by (by apply cleaned_fenced_line).
  assert (accepted JSON_parse (cleaned line) = true) as Hacc.
  { rewrite Hc. unfold accepted. subst obj. by rewrite Hparse. }
  split; [done|]. split.
  { subst st'. rewrite writes_process_line. unfold emitted.
    by rewrite Hacc, Hc. }
  assert (cardCount st' = S (cardCount st)
          /\ warnings (effects st') = warnings (effects st)) as [? ?].
  { subst st'. unfold process_line.
    unfold accepted, cleaned in Hacc, Hc.
    destruct (trim line) as [|c l]; [by rewrite Hc in Hacc|].
    apply andb_true_iff in Hacc as [-> ->].
    split; [done|]. norm_writes. reflexivity. }
  split_and!; [done..|].
  intros Hb. subst obj. rewrite elem_of_app, !elem_of_cons, elem_of_app.
  rewrite !elem_of_cons, !elem_of_nil. unfold BACKTICK, LBRACE, RBRACE, LF in *.
  intros [[?|[?|[?|[]]]]|[?|[]]]; done.
Qed.

End FramingFacts.

(** ** The adapters and the usage summary *)

Section HandlerFacts.
Variable JSON_parse : jsstring -> bool.
Variable parseFloat : jsstring -> number.
Variable TypeError_message : type_error -> jsstring.

Lemma process_line_set_usage line u st :
  process_line JSON_parse line (set_providerUsage u st) =
  set_providerUsage u (process_line JSON_parse line st).
Proof.
  unfold process_line. destruct line; [done|].
  repeat case_match; reflexivity.
Qed.

Lemma process_lines_set_usage ls u st :
  process_lines JSON_parse (set_providerUsage u st) ls =
  set_providerUsage u (process_lines JSON_parse st ls).
Proof.
  revert st. induction ls as [|l ls IH]; intros st; simpl; [done|].
  by rewrite process_line_set_usage, IH.
Qed.

Lemma first_chunk_set_usage u st :
  first_chunk (set_providerUsage u st) = set_providerUsage u (first_chunk st).
Proof. unfold first_chunk. simpl. by destruct (firstChunkReceived st). Qed.

Lemma first_chunk_usage st : providerUsage (first_chunk st) = providerUsage st.
Proof. unfold first_chunk. by destruct (firstChunkReceived st). Qed.

Lemma on_content_set_usage content u st :
  on_content JSON_parse content (set_providerUsage u st) =
  set_providerUsage u (on_content JSON_parse content st).
Proof.
  rewrite !on_content_spec. simpl buffer.
  by rewrite first_chunk_set_usage, process_lines_set_usage.
Qed.

Lemma frame_from_set_usage fragments u st :
  frame_from JSON_parse (set_providerUsage u st) fragments =
  set_providerUsage u (frame_from JSON_parse st fragments).
Proof.
  revert st. induction fragments as [|f fs IH]; intros st; [done|].
  simpl. by rewrite on_content_set_usage, IH.
Qed.

Lemma process_lines_usage ls st :
  providerUsage (process_lines JSON_parse st ls) = providerUsage st.
Proof.
  revert st. induction ls as [|l ls IH]; intros st; simpl; [done|].
  rewrite IH. unfold process_line. destruct (trim l); [done|].
  repeat case_match; reflexivity.
Qed.

Lemma on_content_usage content st :
  providerUsage (on_content JSON_parse content st) = providerUsage st.
Proof.
  rewrite on_content_spec.
  change (providerUsage (set_buffer ?b ?x)) with (providerUsage x).
  by rewrite process_lines_usage, first_chunk_usage.
Qed.

Lemma set_usage_id st : set_providerUsage (providerUsage st) st = st.
Proof. by destruct st. Qed.

(** The loop over an iterator is the framing loop over the fragments it
    yields; the usage summary ends as the last assignment made. *)
Lemma run_steps_spec steps st :
  run_steps JSON_parse st steps =
  set_providerUsage (default (providerUsage st) (last (updates steps)))
    (frame_from JSON_parse st (yielded steps)).
Proof.
  revert st. induction steps as [|s steps IH]; intros st.
  - simpl. by rewrite set_usage_id.
  - change (run_steps JSON_parse st (s :: steps))
      with (run_steps JSON_parse (run_step JSON_parse st s) steps).
    rewrite IH. destruct s as [u|content]; csimpl.
    + rewrite frame_from_set_usage, last_cons.
      by destruct (last (updates steps)).
    + by rewrite on_content_usage.
Qed.

Lemma omap_harmless {A} (f : effect -> option A) (t : trace) :
  (forall e, harmless e = true -> f e = None) ->
  forallb harmless t = true -> omap f t = [].
Proof.
  intros Hf. induction t as [|e t IH]; csimpl; [done|].
  intros [He Ht]%andb_true_iff. by rewrite (Hf e He), IH.
Qed.

Lemma json_sent_harmless t t' :
  forallb harmless t' = true -> json_sent (t ++ t') = json_sent t.
Proof.
  intros H. unfold json_sent. rewrite omap_app, (omap_harmless _ t'), app_nil_r; try done.
  by intros [[]| | | | | |].
Qed.

Lemma errors_harmless t t' :
  forallb harmless t' = true -> errors (t ++ t') = errors t.
Proof.
  intros H. unfold errors. rewrite omap_app, (omap_harmless _ t'), app_nil_r; try done.
  by intros [[]| | | | | |].
Qed.

Lemma upstream_calls_harmless t t' :
  forallb harmless t' = true -> upstream_calls (t ++ t') = upstream_calls t.
Proof.
  intros H. unfold upstream_calls.
  rewrite omap_app, (omap_harmless _ t'), app_nil_r; try done.
  by intros [[]| | | | | |].
Qed.

Lemma status_code_harmless t t' :
  forallb harmless t' = true -> status_code (t ++ t') = status_code t.
Proof.
  intros H. unfold status_code. rewrite omap_app, (omap_harmless _ t'), app_nil_r; try done.
  by intros [[]| | | | | |].
Qed.

Lemma harmless_prefix t t' :
  forallb harmless t = true ->
  upstream_calls (t ++ t') = upstream_calls t'
  /\ json_sent (t ++ t') = json_sent t'
  /\ status_code (t ++ t') = status_code t'
  /\ errors (t ++ t') = errors t'.
Proof.
  intros H. unfold upstream_calls, json_sent, status_code, errors.
  rewrite !omap_app.
  rewrite !(omap_harmless _ t); try done; by intros [[]| | | | | |].
Qed.

Lemma harmless_process_line line st :
  exists t', effects (process_line JSON_parse line st) = effects st ++ t'
             /\ forallb harmless t' = true.
Proof.
  unfold process_line. destruct line as [|c line].
  { exists []. by rewrite app_nil_r. }
  repeat case_match; cbv zeta; autorewrite with trace_db;
    rewrite <- ?app_assoc; eexists; split; try reflexivity; reflexivity.
Qed.

Lemma harmless_process_lines ls st :
  exists t', effects (process_lines JSON_parse st ls) = effects st ++ t'
             /\ forallb harmless t' = true.
Proof.
  revert st. induction ls as [|l ls IH]; intros st; simpl.
  { exists []. by rewrite app_nil_r. }
  destruct (IH (process_line JSON_parse (trim l) st)) as (t2 & -> & H2).
  destruct (harmless_process_line (trim l) st) as (t1 & -> & H1).
  exists (t1 ++ t2). rewrite (assoc_L (++)). split; [done|].
  by rewrite forallb_app, H1, H2.
Qed.

Lemma harmless_flush_buffer st :
  exists t', effects (flush_buffer JSON_parse st) = effects st ++ t'
             /\ forallb harmless t' = true.
Proof.
  unfold flush_buffer. destruct (trim (buffer st)).
  { exists []. by rewrite app_nil_r. }
  repeat case_match; cbv zeta; autorewrite with trace_db;
    rewrite <- ?app_assoc;
    first [ by eexists; split; [reflexivity|]
          | by exists []; rewrite app_nil_r ].
Qed.

Lemma harmless_stream_state t steps :
  exists t', effects (stream_state JSON_parse t steps) = t ++ t'
             /\ forallb harmless t' = true.
Proof.
  unfold stream_state. rewrite run_steps_spec, frame_from_spec.
  destruct (yielded steps) as [|f fs].
  - exists [Log LInfo StreamStarted]. done.
  - cbn [effects set_providerUsage set_buffer].
    match goal with |- context [process_lines _ ?st ?ls] =>
      destruct (harmless_process_lines ls st) as (t' & -> & H') end.
    rewrite first_chunk_effects. cbn [effects firstChunkReceived].
    exists ([Log LInfo StreamStarted; Log LInfo FirstContentChunk] ++ t').
    rewrite <- !app_assoc. split; [done|]. by rewrite forallb_app, H'.
Qed.

Lemma flush_buffer_set_usage u st :
  flush_buffer JSON_parse (set_providerUsage u st) =
  set_providerUsage u (flush_buffer JSON_parse st).
Proof. unfold flush_buffer. simpl. repeat case_match; reflexivity. Qed.

Lemma flush_buffer_usage st :
  providerUsage (flush_buffer JSON_parse st) = providerUsage st.
Proof. unfold flush_buffer. repeat case_match; reflexivity. Qed.

Lemma stream_state_usage t steps :
  providerUsage (stream_state JSON_parse t steps) =
  default zero_usage (last (updates steps)).
Proof. unfold stream_state. by rewrite run_steps_spec. Qed.

Lemma updates_gemini chunks :
  updates (gemini_iterator chunks) = omap gemini_metadata chunks.
Proof.
  induction chunks as [|c cs IH]; [done|].
  unfold gemini_iterator in *. csimpl. unfold updates in *.
  rewrite omap_app, IH. unfold gemini_steps, gemini_metadata.
  by destruct (usageMetadata c).
Qed.

Lemma updates_openai chunks :
  updates (openai_iterator chunks) = omap openai_metadata chunks.
Proof.
  induction chunks as [|c cs IH]; [done|].
  unfold openai_iterator in *. csimpl. unfold updates in *.
  rewrite omap_app, IH. unfold openai_steps, openai_metadata.
  destruct (usage c); destruct (delta_content c) as [[|]|]; reflexivity.
Qed.

(** C10: the usage summary starts as zero on both counts; an assignment
    replaces both counts with the chunk's values whatever was there before;
    so when either adapter is exhausted the summary is the last metadata
    its chunks carried, or still zero when none carried any; and this is the
    summary the cost lines are computed from. *)
Theorem usage_summary_is_last_metadata (env : environment) (name : jsstring)
    (t : trace) :
  providerUsage (stream_state JSON_parse t []) = zero_usage
  /\ (forall st u, providerUsage (run_step JSON_parse st (Update u)) = u)
  /\ (forall chunks,
        providerUsage (stream_state JSON_parse t (gemini_iterator chunks)) =
        default zero_usage (last (omap gemini_metadata chunks)))
  /\ (forall chunks,
        providerUsage (stream_state JSON_parse t (openai_iterator chunks)) =
        default zero_usage (last (omap openai_metadata chunks)))
  /\ (forall steps,
        relay JSON_parse parseFloat env name t steps None =
        effects (flush_buffer JSON_parse (stream_state JSON_parse t steps))
        ++ [ResEnd; Log LInfo StreamCompleted]
        ++ log_cost parseFloat env name
             (default zero_usage (last (updates steps)))).
Proof.
  split_and!.
  - reflexivity.
  - reflexivity.
  - intros chunks. by rewrite stream_state_usage, updates_gemini.
  - intros chunks. by rewrite stream_state_usage, updates_openai.
  - intros steps. unfold relay.
    by rewrite flush_buffer_usage, stream_state_usage.
Qed.

(** *** The guards of the handler *)

(** Up to the topic check the handler only logs, at level [info]. *)
Lemma preamble_logs req : forallb is_info_log (preamble req).1 = true.
Proof. unfold preamble. cbv zeta. repeat case_match; reflexivity. Qed.

Lemma info_logs_harmless t :
  forallb is_info_log t = true -> forallb harmless t = true.
Proof.
  induction t as [|e t IH]; simpl; [done|].
  intros [He Ht]%andb_true_iff. rewrite IH by done.
  by destruct e as [[]| | | | | |].
Qed.

Lemma info_logs_writes t : forallb is_info_log t = true -> writes t = [].
Proof.
  induction t as [|e t IH]; simpl; [done|].
  intros [He Ht]%andb_true_iff. destruct e as [[]| | | | | |]; try done.
  csimpl. by apply IH.
Qed.

Lemma info_logs_headersSent t :
  forallb is_info_log t = true -> headersSent t = false.
Proof.
  induction t as [|e t IH]; simpl; [done|].
  intros [He Ht]%andb_true_iff. destruct e as [[]| | | | | |]; try done.
  by apply IH.
Qed.

Lemma info_logs_no_header t name value :
  forallb is_info_log t = true -> SetHeader name value ∉ t.
Proof.
  induction t as [|e t IH]; simpl; [intros _; apply not_elem_of_nil|].
  intros [He Ht]%andb_true_iff. apply not_elem_of_cons. split; [|by apply IH].
  intros <-. done.
Qed.

Lemma harmless_preamble req : forallb harmless (preamble req).1 = true.
Proof. apply info_logs_harmless, preamble_logs. Qed.

Lemma harmless_before_key_check env req :
  forallb harmless (before_key_check env req) = true.
Proof.
  unfold before_key_check. by rewrite forallb_app, harmless_preamble.
Qed.

Lemma writes_preamble req : writes (preamble req).1 = [].
Proof. apply info_logs_writes, preamble_logs. Qed.

Lemma writes_before_key_check env req : writes (before_key_check env req) = [].
Proof. unfold before_key_check. by rewrite writes_app, writes_preamble. Qed.

Lemma writes_before_stream env req : writes (before_stream env req) = [].
Proof.
  unfold before_stream. cbv zeta.
  by rewrite writes_app, writes_before_key_check.
Qed.

Lemma headersSent_preamble req : headersSent (preamble req).1 = false.
Proof. apply info_logs_headersSent, preamble_logs. Qed.

Lemma headersSent_before_key_check env req :
  headersSent (before_key_check env req) = false.
Proof.
  unfold before_key_check, headersSent.
  rewrite existsb_app. fold (headersSent (preamble req).1).
  by rewrite headersSent_preamble.
Qed.

Lemma catch_block_unsent t err :
  headersSent t = false ->
  catch_block t err =
  t ++ [Log LError (CriticalError err); SetStatus 500;
        SendJson (ErrorDetails (lit "Failed to generate flashcards") err)].
Proof. intros H. unfold catch_block. by rewrite H. Qed.

Lemma catch_block_sent t err :
  headersSent t = true ->
  catch_block t err = t ++ [Log LError (CriticalError err); ResEnd].
Proof. intros H. unfold catch_block. by rewrite H. Qed.

(** Lines 62-64 run through exactly when the body is there and the topic
    and [context.length], the latter when the context is truthy, can be
    converted to strings. *)
Lemma preamble_runs_through req :
  (preamble req).2 = None <->
  body req <> JUndefined /\ body req <> JNull
  /\ toString_throws (topic req) = false
  /\ (truthy (context req) = true ->
      toString_throws (length_of (context req)) = false).
Proof.
  unfold preamble. cbv zeta.
  destruct (body req) eqn:Hb; cbn [snd];
    try (split; [done|by intros (? & ? & _)]);
    (destruct (toString_throws (topic req));
     [split; [done|by intros (_ & _ & ? & _)]|]);
    (destruct (truthy (context req));
     [destruct (toString_throws (length_of (context req)))|]); cbn [snd];
    first [ by split; [done|intros (_ & _ & _ & H); by specialize (H eq_refl)]
          | by split ].
Qed.

Lemma validated_spec req :
  validated req = true <->
  (preamble req).2 = None /\ truthy (topic req) = true
  /\ contextString_throws (context req) = false.
Proof.
  unfold validated. destruct (preamble req).2; [split; [done|by intros [? _]]|].
  rewrite andb_true_iff, negb_true_iff.
  split; [by intros [? ?]|by intros (_ & ? & ?)].
Qed.

(** A body of the documented type, a topic that is a string with at least
    one code unit and a context that is absent or a list of strings, gets
    past line 74. *)
Lemma typed_request_validated req s :
  topic req = JString s -> s <> [] ->
  (context req = JUndefined
   \/ exists items, context req = JArray items
                    /\ Forall (fun v => exists x, v = JString x) items) ->
  validated req = true.
Proof.
  intros Ht Hs Hc. apply validated_spec.
  assert (truthy (topic req) = true) as Htruthy
    by (rewrite Ht; by destruct s).
  split; [|split; [done|]].
  - apply preamble_runs_through.
    split_and!; try (intros Hb; unfold topic in Ht; by rewrite Hb in Ht).
    + by rewrite Ht.
    + destruct Hc as [->|(items & -> & _)]; done.
  - destruct Hc as [->|(items & -> & Hi)]; [done|].
    unfold contextString_throws, exclusions. destruct items as [|i items]; [done|].
    induction Hi as [|v vs [x ->] _ IH]; [done|]. done.
Qed.

(** The six ways a run goes. *)
Lemma handler_cases env w req :
  let t := handler JSON_parse parseFloat TypeError_message env w req in
  let p := branch (provider_name env) in
  let log := (preamble req).1 in
  (validated req = false
   /\ exists e, (preamble req).2 = Some e
                /\ t = catch_block log (TypeError_message e))
  \/ (validated req = false
      /\ (preamble req).2 = None /\ truthy (topic req) = false
      /\ t = log ++
             [Log LWarn TopicMissing; SetStatus 400;
              SendJson (ErrorBody (lit "Topic is required"))])
  \/ (validated req = false
      /\ (preamble req).2 = None /\ truthy (topic req) = true
      /\ t = catch_block log (TypeError_message NotConvertible))
  \/ (validated req = true /\ env_set env (api_key_var p) = false
      /\ t = catch_block (before_key_check env req ++ [Log LError (KeyNotSet p)])
               (lit (api_key_var p) ++ lit " missing"))
  \/ (validated req = true /\ env_set env (api_key_var p) = true
      /\ exists err, open_stream w p = Rejected err
                     /\ t = catch_block (before_stream env req) err)
  \/ (validated req = true /\ env_set env (api_key_var p) = true
      /\ exists steps failure,
           open_stream w p = Streaming steps failure
           /\ t = relay JSON_parse parseFloat env (provider_name env)
                    (before_stream env req) steps failure).
Proof.
  intros t p log. subst t p log. unfold handler, validated.
  destruct (preamble req) as [log [e|]]; cbn [fst snd].
  { left. eauto. }
  destruct (truthy (topic req)); simpl; [|right; left; done].
  destruct (contextString_throws (context req)); simpl;
    [right; right; left; done|].
  destruct (env_set env _); simpl; [|right; right; right; left; done].
  destruct (open_stream w _) as [err|steps failure].
  - do 4 right. left. split_and!; [done..|]. eauto.
  - do 5 right. split_and!; [done..|]. eauto.
Qed.

(** A run that answers before any header is set: with the 400 of the topic
    check or the 500 of a TypeError. *)
Lemma handler_not_validated env w req :
  validated req = false ->
  let t := handler JSON_parse parseFloat TypeError_message env w req in
  ((preamble req).2 = None /\ truthy (topic req) = false
   /\ t = (preamble req).1 ++
          [Log LWarn TopicMissing; SetStatus 400;
           SendJson (ErrorBody (lit "Topic is required"))])
  \/ (exists e,
        ((preamble req).2 = Some e
         \/ (preamble req).2 = None /\ truthy (topic req) = true
            /\ e = NotConvertible)
        /\ t = (preamble req).1 ++
               [Log LError (CriticalError (TypeError_message e)); SetStatus 500;
                SendJson (ErrorDetails (lit "Failed to generate flashcards")
                            (TypeError_message e))]).
Proof.
  intros Hv t.
  destruct (handler_cases env w req)
    as [(_ & e & He & E)|[(_ & Hp & Ht & E)|[(_ & Hp & Ht & E)|
        [(Hv' & _)|[(Hv' & _)|(Hv' & _)]]]]];
    try congruence; fold t in E; rewrite E.
  - rewrite catch_block_unsent by apply headersSent_preamble.
    right. exists e. eauto.
  - left. done.
  - rewrite catch_block_unsent by apply headersSent_preamble.
    right. exists NotConvertible. split; [right|]; done.
Qed.

Lemma not_validated_views req c b lv m :
  let t := (preamble req).1 ++ [Log lv m; SetStatus c; SendJson b] in
  upstream_calls t = [] /\ writes t = []
  /\ status_code t = c /\ json_sent t = [b]
  /\ (forall name value, SetHeader name value ∉ t).
Proof.
  intros t. subst t.
  destruct (harmless_prefix (preamble req).1 [Log lv m; SetStatus c; SendJson b]
              (harmless_preamble req)) as (-> & -> & -> & _).
  rewrite writes_app, writes_preamble.
  split_and!; try reflexivity.
  intros name value [H|H]%elem_of_app.
  - by apply (info_logs_no_header _ name value (preamble_logs req)).
  - repeat (apply elem_of_cons in H as [H|H]; [done|]).
    by apply elem_of_nil in H.
Qed.


(** C7: when the key of the branch taken is not set, no upstream call is
    made and nothing is written to the body, whatever the request; the
    caller gets an error status, 400 or 500, with one JSON error body.  A
    request that gets as far as the key check is answered 500, with
    [details] naming the missing key, after the two error lines; the status
    is 400 only for the request the topic check turns down. *)
Theorem missing_key_fails_before_upstream (env : environment) (w : world)
    (req : request) :
  env_set env (api_key_var (branch (provider_name env))) = false ->
  let p := branch (provider_name env) in
  let t := handler JSON_parse parseFloat TypeError_message env w req in
  upstream_calls t = []
  /\ writes t = []
  /\ (status_code t = 400%nat \/ status_code t = 500%nat)
  /\ (exists b, json_sent t = [b])
  /\ (validated req = true ->
      status_code t = 500%nat
      /\ json_sent t =
           [ErrorDetails (lit "Failed to generate flashcards")
              (lit (api_key_var p) ++ lit " missing")]
      /\ errors t =
           [KeyNotSet p;
            CriticalError (lit (api_key_var p) ++ lit " missing")])
  /\ (status_code t = 400%nat <->
      (preamble req).2 = None /\ truthy (topic req) = false).
Proof.
  intros Hkey p t. subst p.
  destruct (validated req) eqn:Hv.
  - destruct (handler_cases env w req)
      as [(Hv' & _)|[(Hv' & _)|[(Hv' & _)|
          [(_ & _ & E)|[(_ & Hk & _)|(_ & Hk & _)]]]]];
      try congruence. fold t in E.
    assert (upstream_calls t = [] /\ writes t = [] /\ status_code t = 500%nat
            /\ json_sent t =
                 [ErrorDetails (lit "Failed to generate flashcards")
                    (lit (api_key_var (branch (provider_name env)))
                     ++ lit " missing")]
            /\ errors t =
                 [KeyNotSet (branch (provider_name env));
                  CriticalError
                    (lit (api_key_var (branch (provider_name env)))
                     ++ lit " missing")]) as (Hu & Hw & Hs & Hj & He).
    { rewrite E, catch_block_unsent.
      2: { by rewrite headersSent_app, headersSent_before_key_check. }
      rewrite <- app_assoc.
      match goal with |- context [before_key_check env req ++ ?t'] =>
        destruct (harmless_prefix (before_key_check env req) t'
                    (harmless_before_key_check env req)) as (-> & -> & -> & ->)
      end.
      split_and!; try reflexivity.
      by rewrite !writes_app, writes_before_key_check. }
    rewrite Hs, Hj. split_and!; eauto.
    apply validated_spec in Hv as (_ & Ht & _). rewrite Ht.
    split; [done|by intros [_ ?]].
  - destruct (handler_not_validated env w req Hv)
      as [(Hp & Ht & E)|(e & Hc & E)]; fold t in E.
    + destruct (not_validated_views req 400
                  (ErrorBody (lit "Topic is required")) LWarn TopicMissing)
        as (Hu & Hw & Hs & Hj & _).
      rewrite <- E in *. rewrite Hs, Hj. split_and!; eauto; done.
    + destruct (not_validated_views req 500
                  (ErrorDetails (lit "Failed to generate flashcards")
                     (TypeError_message e))
                  LError (CriticalError (TypeError_message e)))
        as (Hu & Hw & Hs & Hj & _).
      rewrite <- E in *. rewrite Hs, Hj. split_and!; eauto; try done.
      split; [done|]. intros [Hp Ht].
      destruct Hc as [?|(_ & ? & _)]; congruence.
Qed.

(** *** A stream that completes *)

Lemma handler_streams env w req steps failure :
  streams env w req steps failure ->
  handler JSON_parse parseFloat TypeError_message env w req =
  relay JSON_parse parseFloat env (provider_name env) (before_stream env req)
    steps failure.
Proof.
  intros (Hv & Hkey & Hopen).
  destruct (handler_cases env w req)
    as [(Hv' & _)|[(Hv' & _)|[(Hv' & _)|
        [(_ & Hk & _)|[(_ & _ & err & Ho & _)|(_ & _ & st & f & Ho & E)]]]]];
    congruence.
Qed.

Lemma harmless_log_cost env name u :
  forallb harmless (log_cost parseFloat env name u) = true.
Proof.
  unfold log_cost. destruct (_ || _); [|done].
  by destruct (cost_rates _ _ _).
Qed.

Lemma writes_log_cost env name u : writes (log_cost parseFloat env name u) = [].
Proof.
  unfold log_cost. destruct (_ || _); [|done].
  by destruct (cost_rates _ _ _).
Qed.

Lemma relay_completed_harmless env name t steps :
  exists t', relay JSON_parse parseFloat env name t steps None = t ++ t'
             /\ forallb harmless t' = true /\ ResEnd ∈ t'
             /\ Log LInfo StreamCompleted ∈ t'.
Proof.
  unfold relay.
  destruct (harmless_flush_buffer (stream_state JSON_parse t steps))
    as (t2 & -> & H2).
  destruct (harmless_stream_state t steps) as (t1 & -> & H1).
  eexists. rewrite <- !app_assoc. split; [reflexivity|].
  split.
  - by rewrite !forallb_app, H1, H2, harmless_log_cost.
  - split; rewrite !elem_of_app; right; right; left.
    + by left.
    + right. by left.
Qed.

Lemma writes_relay_completed env name t steps :
  writes (relay JSON_parse parseFloat env name t steps None) =
  writes t ++ omap (emitted JSON_parse) (candidate_lines (concat (yielded steps))).
Proof.
  unfold relay, stream_state.
  rewrite run_steps_spec, flush_buffer_set_usage.
  cbn [effects set_providerUsage].
  rewrite !writes_app, writes_log_cost, writes_flush_frame_from by done.
  cbn [effects]. autorewrite with trace_db. reflexivity.
Qed.

(** The body a completed stream leaves: C1 seen from the handler. *)
Lemma handler_writes_completed env w req steps :
  streams env w req steps None ->
  writes (handler JSON_parse parseFloat TypeError_message env w req) =
  (fun l => cleaned l ++ [LF])
    <$> List.filter (fun l => accepted JSON_parse (cleaned l))
          (candidate_lines (concat (yielded steps))).
Proof.
  intros Hs. rewrite (handler_streams _ _ _ _ _ Hs).
  by rewrite writes_relay_completed, writes_before_stream, omap_emitted.
Qed.

Lemma before_stream_response env req :
  status_code (before_stream env req) = 200%nat
  /\ json_sent (before_stream env req) = []
  /\ errors (before_stream env req) = [].
Proof.
  unfold before_stream. cbv zeta.
  match goal with |- context [before_key_check env req ++ ?t'] =>
    destruct (harmless_prefix (before_key_check env req) t'
                (harmless_before_key_check env req)) as (_ & -> & -> & ->)
  end.
  done.
Qed.

(** C5: when the text received is a valid line, a malformed line and a
    valid line, the first two ended by a newline and the last ended by one or
    by the end of the stream, however it is cut into fragments, the handler
    writes exactly the two valid lines, in order, reaches the end of the
    response and the completion of the stream, and the caller sees no
    failure: the status stays 200, no JSON error body is sent and nothing is
    logged as an error. *)
Theorem malformed_line_skipped (env : environment) (w : world) (req : request)
    (steps : list step) (l1 m l2 : jsstring) (terminated : bool) :
  streams env w req steps None ->
  concat (yielded steps) =
    l1 ++ LF :: m ++ LF :: l2 ++ (if terminated then [LF] else []) ->
  indexOf LF l1 = None -> indexOf LF m = None -> indexOf LF l2 = None ->
  accepted JSON_parse (cleaned l1) = true ->
  accepted JSON_parse (cleaned m) = false ->
  accepted JSON_parse (cleaned l2) = true ->
  let t := handler JSON_parse parseFloat TypeError_message env w req in
  writes t = [cleaned l1 ++ [LF]; cleaned l2 ++ [LF]]
  /\ ResEnd ∈ t
  /\ Log LInfo StreamCompleted ∈ t
  /\ status_code t = 200%nat
  /\ json_sent t = []
  /\ errors t = [].
Proof.
  intros Hs Htext H1 Hm H2 A1 Am A2 t. subst t.
  rewrite (handler_streams _ _ _ _ _ Hs).
  split.
  { rewrite writes_relay_completed, writes_before_stream, Htext.
    rewrite (candidate_lines_line l1), (candidate_lines_line m) by done.
    assert (omap (emitted JSON_parse)
              (candidate_lines (l2 ++ (if terminated then [LF] else [])))
            = [cleaned l2 ++ [LF]]) as E.
    { destruct terminated.
      - rewrite (candidate_lines_line l2 []) by done.
        csimpl. unfold emitted. by rewrite A2.
      - rewrite app_nil_r, candidate_lines_last by done.
        csimpl. unfold emitted. by rewrite A2. }
    csimpl. rewrite E. unfold emitted. by rewrite A1, Am. }
  destruct (relay_completed_harmless env (provider_name env)
              (before_stream env req) steps) as (t' & -> & Hh & Hend & Hdone).
  rewrite status_code_harmless, json_sent_harmless, errors_harmless by done.
  destruct (before_stream_response env req) as (-> & -> & ->).
  split_and!; try done; rewrite elem_of_app; by right.
Qed.

(** *** The cost estimate *)

(** C8: when the input or the output count is above zero, the cost lines
    are logged with the total of the estimate [inputTokens/1e6 * inputRate +
    outputTokens/1e6 * outputRate], the two rates being those configured for
    the branch of the active provider; when neither is above zero, and so
    when both are zero, one warning is logged in their place.  Either way
    nothing is logged as an error, and a completed stream leaves the status,
    the JSON body and the error log as they were before it. *)
Theorem cost_estimate_as_specified (env : environment) (name : jsstring)
    (u : usage_summary) :
  let p := branch name in
  let inputRate :=
    parseFloat (env_or env (input_cost_var p) (default_input_cost p)) in
  let outputRate :=
    parseFloat (env_or env (output_cost_var p) (default_output_cost p)) in
  let c := estimate u inputRate outputRate in
  ((0 <? inputTokens u)%float = true \/ (0 <? outputTokens u)%float = true ->
     log_cost parseFloat env name u =
       [Log LInfo (CostProvider name);
        Log LInfo (CostUsage (inputTokens u) (outputTokens u));
        Log LInfo (CostEstimated (totalCost c))]
     /\ inputCost c = (inputTokens u / 1000000 * inputRate)%float
     /\ outputCost c = (outputTokens u / 1000000 * outputRate)%float
     /\ totalCost c = (inputCost c + outputCost c)%float)
  /\ ((0 <? inputTokens u)%float = false ->
      (0 <? outputTokens u)%float = false ->
      log_cost parseFloat env name u = [Log LWarn UsageNotCollected])
  /\ log_cost parseFloat env name zero_usage = [Log LWarn UsageNotCollected]
  /\ errors (log_cost parseFloat env name u) = []
  /\ (forall t steps,
        let r := relay JSON_parse parseFloat env name t steps None in
        status_code r = status_code t
        /\ json_sent r = json_sent t
        /\ errors r = errors t).
Proof.
  intros p inputRate outputRate c. split_and!.
  - intros H. unfold log_cost, cost_rates.
    assert ((0 <? inputTokens u)%float || (0 <? outputTokens u)%float = true) as ->.
    { destruct H as [-> | ->]; [done|by rewrite orb_true_r]. }
    done.
  - intros H1 H2. unfold log_cost. by rewrite H1, H2.
  - reflexivity.
  - unfold log_cost. destruct (_ || _); [|done].
    by destruct (cost_rates _ _ _).
  - intros t steps r. subst r.
    destruct (relay_completed_harmless env name t steps) as (t' & -> & Hh & _).
    by rewrite status_code_harmless, json_sent_harmless, errors_harmless.
Qed.

End HandlerFacts.

(** ** More on strings *)

Lemma dropWhile_suffix p (s : jsstring) :
  exists k, s = k ++ dropWhile p s /\ forallb p k = true.
Proof.
  induction s as [|c s (k & E & Hk)]; simpl.
  - by exists [].
  - destruct (p c) eqn:Hc.
    + exists (c :: k). simpl. rewrite Hc, Hk. split; [by rewrite <- E|done].
    + by exists [].
Qed.

Lemma dropWhile_In p (s : jsstring) x : In x (dropWhile p s) -> In x s.
Proof.
  destruct (dropWhile_suffix p s) as (k & E & _). intros H.
  rewrite E. apply in_or_app. by right.
Qed.

Lemma dropWhile_solid p (s : jsstring) :
  match dropWhile p s with [] => True | c :: _ => p c = false end.
Proof.
  induction s as [|c s IH]; simpl; [done|]. by destruct (p c) eqn:Hc.
Qed.

Lemma dropWhile_app p (a b : jsstring) :
  dropWhile p (a ++ b) =
  match dropWhile p a with [] => dropWhile p b | y => y ++ b end.
Proof.
  induction a as [|c a IH]; simpl; [done|]. by destruct (p c).
Qed.

Lemma trim_In (s : jsstring) x : In x (trim s) -> In x s.
Proof.
  unfold trim, trimEnd, trimStart.
  intros H%in_rev%dropWhile_In%in_rev. by apply dropWhile_In in H.
Qed.

Lemma strip_open_fence_In (s : jsstring) x : In x (strip_open_fence s) -> In x s.
Proof.
  unfold strip_open_fence. destruct (startsWith _ _); [|done].
  intros H%dropWhile_In.
  rewrite <- (take_drop (length OPEN_FENCE) s). apply in_or_app. by right.
Qed.

Lemma match_backtick {A} (a : N) (X Y : A) :
  match a with 96 => X | _ => Y end = if a =? 96 then X else Y.
Proof.
  destruct a as [|p]; [done|].
  do 7 (destruct p as [p|p|]; try done).
Qed.

(** The closing pattern, by a test on the reversed text. *)
Lemma strip_close_fence_test (s : jsstring) :
  strip_close_fence s =
  if startsWith CLOSE_FENCE (rev s)
  then rev (dropWhile is_space (drop 3 (rev s))) else s.
Proof.
  unfold strip_close_fence.
  destruct (rev s) as [|a [|b [|c r]]]; unfold CLOSE_FENCE;
    cbn [startsWith drop]; rewrite ?match_backtick;
    repeat rewrite (N.eqb_sym 96).
  - done.
  - by destruct (a =? 96).
  - by destruct (a =? 96), (b =? 96).
  - by destruct (a =? 96), (b =? 96), (c =? 96).
Qed.

Lemma strip_close_fence_In (s : jsstring) x : In x (strip_close_fence s) -> In x s.
Proof.
  rewrite strip_close_fence_test. destruct (startsWith _ _); [|done].
  intros H%in_rev%dropWhile_In. apply in_rev.
  rewrite <- (take_drop 3 (rev s)). apply in_or_app. by right.
Qed.

Lemma trim_snoc_space (s : jsstring) c :
  is_space c = true -> trim (s ++ [c]) = trim s.
Proof.
  intros Hc. unfold trim, trimStart, trimEnd. rewrite dropWhile_app.
  destruct (dropWhile is_space s) as [|y ys].
  - simpl. by rewrite Hc.
  - rewrite rev_app_distr. simpl rev at 1. cbn [app dropWhile]. by rewrite Hc.
Qed.

Lemma split_lines_rest_no_newline (text : jsstring) :
  indexOf LF (split_lines text).2 = None.
Proof.
  induction text as [|c l IH]; simpl; [done|].
  destruct (split_lines l) as [ls r]; simpl in *.
  destruct (c =? LF) eqn:E; [done|].
  destruct ls; simpl; [|done]. by rewrite E, IH.
Qed.

Lemma split_lines_snoc (r : jsstring) c :
  indexOf LF r = None ->
  split_lines (r ++ [c]) = if c =? LF then ([r], []) else ([], r ++ [c]).
Proof.
  induction r as [|d r IH]; simpl.
  - by destruct (c =? LF).
  - destruct (d =? LF) eqn:E; [done|].
    destruct (indexOf LF r); [done|]. intros _. rewrite IH by done.
    by destruct (c =? LF).
Qed.

Lemma solid_prefix (a b : jsstring) :
  starts_solid (a ++ b) = true -> a <> [] -> starts_solid a = true.
Proof. by destruct a. Qed.

Lemma dropWhile_is_space_solid (s : jsstring) :
  dropWhile is_space s = [] \/ starts_solid (dropWhile is_space s) = true.
Proof.
  pose proof (dropWhile_solid is_space s) as H.
  destruct (dropWhile is_space s); [by left|right]. simpl. by rewrite H.
Qed.

Lemma trimmed_nil_or (s : jsstring) :
  trimmed s -> s <> [] -> starts_solid s = true /\ starts_solid (rev s) = true.
Proof. by intros [->|?]. Qed.

(** What is left of a trimmed text after dropping a prefix and the white
    space that follows is trimmed. *)
Lemma trimmed_drop_front (pre s : jsstring) :
  trimmed (pre ++ s) -> trimmed (dropWhile is_space s).
Proof.
  intros Ht. destruct (dropWhile_is_space_solid s) as [E|Hy]; [by left|].
  right. split; [done|].
  destruct (dropWhile_suffix is_space s) as (k & E & _).
  assert (dropWhile is_space s <> []) as Hne
    by (by destruct (dropWhile is_space s)).
  destruct (trimmed_nil_or _ Ht) as [_ Hr].
  { rewrite E. intros H%app_eq_nil. destruct H as [_ H%app_eq_nil]. by destruct H. }
  rewrite E, !rev_app_distr, <- app_assoc in Hr.
  apply solid_prefix in Hr; [done|].
  intros H. apply (f_equal (@rev N)) in H. by rewrite rev_involutive in H.
Qed.

(** The same at the other end. *)
Lemma trimmed_drop_back (s post : jsstring) :
  trimmed (s ++ post) -> trimmed (rev (dropWhile is_space (rev s))).
Proof.
  intros Ht.
  destruct (dropWhile_is_space_solid (rev s)) as [E|Hy]; [left; by rewrite E|].
  right. rewrite rev_involutive. split; [|done].
  destruct (dropWhile_suffix is_space (rev s)) as (k & E & _).
  assert (rev (dropWhile is_space (rev s)) <> []) as Hne.
  { intros H. apply (f_equal (@rev N)) in H. rewrite rev_involutive in H.
    by rewrite H in Hy. }
  apply (f_equal (@rev N)) in E. rewrite rev_involutive, rev_app_distr in E.
  destruct (trimmed_nil_or _ Ht) as [Hs _].
  { rewrite E. intros H%app_eq_nil. destruct H as [H%app_eq_nil _]. by destruct H. }
  rewrite E, <- app_assoc in Hs. by apply solid_prefix in Hs.
Qed.

Lemma trimmed_trim (s : jsstring) : trimmed (trim s).
Proof.
  unfold trim, trimEnd, trimStart.
  set (y := dropWhile is_space s).
  destruct (dropWhile_is_space_solid (rev y)) as [E|Hw]; [left; by rewrite E|].
  right. rewrite rev_involutive. split; [|done].
  destruct (dropWhile_suffix is_space (rev y)) as (k & E & _).
  assert (rev (dropWhile is_space (rev y)) <> []) as Hne.
  { intros H. apply (f_equal (@rev N)) in H. rewrite rev_involutive in H.
    by rewrite H in Hw. }
  apply (f_equal (@rev N)) in E. rewrite rev_involutive, rev_app_distr in E.
  destruct (dropWhile_is_space_solid s) as [Hy|Hy]; fold y in Hy.
  - rewrite E in Hy. by apply app_eq_nil in Hy as [Hy _].
  - rewrite E in Hy. by apply solid_prefix in Hy.
Qed.

Lemma trimmed_strip_open_fence (s : jsstring) :
  trimmed s -> trimmed (strip_open_fence s).
Proof.
  intros H. unfold strip_open_fence. destruct (startsWith _ _); [|done].
  apply (trimmed_drop_front (take (length OPEN_FENCE) s)).
  by rewrite take_drop.
Qed.

Lemma trimmed_strip_close_fence (s : jsstring) :
  trimmed s -> trimmed (strip_close_fence s).
Proof.
  intros H. rewrite strip_close_fence_test. destruct (startsWith _ _); [|done].
  rewrite <- (rev_involutive (drop 3 (rev s))).
  apply (trimmed_drop_back _ (rev (take 3 (rev s)))).
  by rewrite <- rev_app_distr, take_drop, rev_involutive.
Qed.

Lemma trim_trimmed (s : jsstring) : trimmed s -> trim s = s.
Proof.
  intros [->|[Hs Hr]]; [done|].
  pose proof (trim_padded [] s [] eq_refl eq_refl Hs Hr) as H.
  cbn [app] in H. by rewrite app_nil_r in H.
Qed.


Lemma indexOf_app_None c (a b : jsstring) :
  indexOf c a = None -> indexOf c b = None -> indexOf c (a ++ b) = None.
Proof.
  induction a as [|d a IH]; simpl; [done|].
  destruct (d =? c); [done|].
  destruct (indexOf c a); [done|]. intros _ Hb. by rewrite IH.
Qed.

(** A line that holds an opening fence and white space cleans to nothing,
    and so does one that holds a closing fence and white space. *)
Lemma cleaned_open_fence_line (lead trail : jsstring) :
  forallb is_space lead = true -> forallb is_space trail = true ->
  cleaned (lead ++ OPEN_FENCE ++ trail) = [].
Proof. intros Hl Ht. unfold cleaned. by rewrite trim_padded. Qed.

Lemma cleaned_close_fence_line (lead trail : jsstring) :
  forallb is_space lead = true -> forallb is_space trail = true ->
  cleaned (lead ++ CLOSE_FENCE ++ trail) = [].
Proof. intros Hl Ht. unfold cleaned. by rewrite trim_padded. Qed.

(** ** Every run of the framing loop *)

Section FramingRuns.
Variable JSON_parse : jsstring -> bool.

Lemma is_loop_effect_framing F :
  forallb is_loop_effect F = true -> forallb is_framing F = true.
Proof.
  induction F as [|e F IH]; simpl; [done|].
  intros [He HF]%andb_true_iff. rewrite IH by done.
  by destruct e as [[] []| | | | | |].
Qed.

Lemma loop_process_line line st :
  exists F, effects (process_line JSON_parse line st) = effects st ++ F
            /\ forallb is_loop_effect F = true.
Proof.
  unfold process_line. destruct line as [|c line].
  { exists []. by rewrite app_nil_r. }
  repeat case_match; cbv zeta; autorewrite with trace_db;
    rewrite <- ?app_assoc; eexists; split; try reflexivity; reflexivity.
Qed.

Lemma loop_process_lines ls st :
  exists F, effects (process_lines JSON_parse st ls) = effects st ++ F
            /\ forallb is_loop_effect F = true.
Proof.
  revert st. induction ls as [|l ls IH]; intros st; simpl.
  { exists []. by rewrite app_nil_r. }
  destruct (IH (process_line JSON_parse (trim l) st)) as (F2 & -> & H2).
  destruct (loop_process_line (trim l) st) as (F1 & -> & H1).
  exists (F1 ++ F2). rewrite (assoc_L (++)). split; [done|].
  by rewrite forallb_app, H1, H2.
Qed.

Lemma framing_flush_buffer st :
  exists F, effects (flush_buffer JSON_parse st) = effects st ++ F
            /\ forallb is_framing F = true.
Proof.
  unfold flush_buffer. destruct (trim (buffer st)).
  { exists []. by rewrite app_nil_r. }
  repeat case_match; cbv zeta; autorewrite with trace_db;
    rewrite <- ?app_assoc;
    first [ by eexists; split; [reflexivity|]
          | by exists []; rewrite app_nil_r ].
Qed.

Lemma framing_frame_from fragments st :
  exists F, effects (frame_from JSON_parse st fragments) = effects st ++ F
            /\ forallb is_framing F = true.
Proof.
  rewrite frame_from_spec. destruct fragments as [|f fs].
  { exists []. by rewrite app_nil_r. }
  cbn [effects set_buffer].
  match goal with |- context [process_lines _ ?st' ?ls] =>
    destruct (loop_process_lines ls st') as (F & -> & HF) end.
  rewrite first_chunk_effects. eexists. rewrite <- app_assoc.
  split; [reflexivity|].
  rewrite forallb_app, (is_loop_effect_framing _ HF).
  by destruct (firstChunkReceived st).
Qed.

(** *** The card counter *)

Lemma card_numbers_app (t t' : trace) :
  card_numbers (t ++ t') = card_numbers t ++ card_numbers t'.
Proof. apply omap_app. Qed.

Lemma counted_process_line line st :
  counted st -> counted (process_line JSON_parse line st).
Proof.
  intros [Hc Hn]. unfold process_line. destruct line as [|c line]; [done|].
  destruct (startsWith _ _); [destruct (JSON_parse _)|]; cbv zeta; unfold counted;
    cbn [cardCount perform incr_cardCount];
    autorewrite with trace_db; rewrite ?card_numbers_app, ?length_app;
    cbn [card_numbers omap list_omap length]; rewrite ?app_nil_r.
  - rewrite seq_S, Hn, Hc. split; [lia|reflexivity].
  - done.
  - done.
Qed.

Lemma counted_first_chunk st : counted st -> counted (first_chunk st).
Proof.
  intros [Hc Hn]. unfold counted.
  rewrite first_chunk_cardCount, first_chunk_effects, writes_app, card_numbers_app.
  destruct (firstChunkReceived st); by rewrite !app_nil_r.
Qed.

Lemma counted_process_lines ls st :
  counted st -> counted (process_lines JSON_parse st ls).
Proof.
  revert st. induction ls as [|l ls IH]; intros st H; [done|].
  apply IH, counted_process_line, H.
Qed.

Lemma counted_flush_buffer st :
  counted st -> counted (flush_buffer JSON_parse st).
Proof.
  intros [Hc Hn]. unfold flush_buffer. destruct (trim (buffer st)); [done|].
  destruct (startsWith _ _); [destruct (JSON_parse _)|]; cbv zeta; unfold counted;
    cbn [cardCount perform incr_cardCount];
    autorewrite with trace_db; rewrite ?card_numbers_app, ?length_app;
    cbn [card_numbers omap list_omap length]; rewrite ?app_nil_r.
  - rewrite seq_S, Hn, Hc. split; [lia|reflexivity].
  - done.
  - done.
Qed.

(** X7: when the parser is done, the card counter is the number of chunks
    written to the response, and the numbers in the [Successfully parsed]
    lines, the final card's included, are 1, 2, ... up to that number, in
    order: every card written is counted once and nothing else is. *)
Theorem cards_are_counted_once (fragments : list jsstring) :
  let st := frame JSON_parse fragments in
  cardCount st = length (writes (effects st))
  /\ card_numbers (effects st) = seq 1 (length (writes (effects st))).
Proof.
  intros st.
  assert (counted st) as [Hc Hn].
  { subst st. unfold frame. apply counted_flush_buffer.
    rewrite frame_from_spec. destruct fragments as [|f fs]; [done|].
    destruct (counted_process_lines
                (split_lines (buffer initial_state ++ concat (f :: fs))).1
                (first_chunk initial_state)) as [Hc Hn]; [done|].
    split; assumption. }
  split; [done|]. by rewrite <- Hc.
Qed.

(** *** Lines are written as they are completed *)

(** X8: after any number of fragments, with the stream still open, the
    chunks written are exactly those of the accepted lines that a newline has
    completed so far; and what the loop has done by then is the beginning of
    what it will have done after any further fragments.  A card is written in
    the turn that brings its newline, and nothing already done is undone. *)
Theorem lines_are_written_as_completed (fragments more : list jsstring) :
  writes (effects (frame_from JSON_parse initial_state fragments)) =
    omap (emitted JSON_parse) (split_lines (concat fragments)).1
  /\ effects (frame_from JSON_parse initial_state fragments)
       `prefix_of`
     effects (frame_from JSON_parse initial_state (fragments ++ more)).
Proof.
  split.
  - rewrite frame_from_spec. destruct fragments as [|f fs]; [done|].
    cbn [effects set_buffer].
    by rewrite writes_process_lines, writes_first_chunk.
  - unfold frame_from at 2. rewrite foldl_app.
    fold (frame_from JSON_parse initial_state fragments).
    fold (frame_from JSON_parse
            (frame_from JSON_parse initial_state fragments) more).
    destruct (framing_frame_from more
                (frame_from JSON_parse initial_state fragments)) as (F & -> & _).
    by exists F.
Qed.

(** X9: a fragment that brings no newline to a buffer that has none is only
    appended to the buffer: nothing is written or counted until a newline
    arrives, and nothing is logged but the [PERF] line, which the first
    fragment of the stream gets whatever it holds. *)
Theorem fragment_without_newline_is_buffered (content : jsstring)
    (st : loop_state) :
  indexOf LF (buffer st ++ content) = None ->
  let st' := on_content JSON_parse content st in
  buffer st' = buffer st ++ content
  /\ effects st' =
     effects st ++
     (if firstChunkReceived st then [] else [Log LInfo FirstContentChunk])
  /\ writes (effects st') = writes (effects st)
  /\ cardCount st' = cardCount st
  /\ firstChunkReceived st' = true.
Proof.
  intros H st'. subst st'.
  rewrite on_content_spec, (split_lines_no_newline _ H).
  cbn [fst snd process_lines foldl buffer effects cardCount firstChunkReceived
       set_buffer].
  rewrite writes_first_chunk, first_chunk_effects, first_chunk_cardCount.
  by rewrite first_chunk_first.
Qed.

(** *** The chunks written are NDJSON records *)

Lemma candidate_lines_no_newline (text : jsstring) :
  Forall (fun l => ~ In LF l) (candidate_lines text).
Proof.
  induction text as [|c text IH]; simpl.
  - constructor; [by intros []|constructor].
  - destruct (c =? LF) eqn:E.
    + constructor; [by intros []|done].
    + destruct (candidate_lines text) as [|l ls]; inversion IH; subst.
      * constructor; [|constructor].
        intros [->|[]]. by rewrite N.eqb_refl in E.
      * constructor; [|done].
        intros [->|H]; [by rewrite N.eqb_refl in E|done].
Qed.

Lemma complete_lines_no_newline (text : jsstring) :
  Forall (fun l => ~ In LF l) (split_lines text).1.
Proof.
  pose proof (candidate_lines_no_newline text) as H.
  rewrite candidate_lines_split in H. by apply Forall_app in H as [H _].
Qed.

Lemma cleaned_In (l : jsstring) x : In x (cleaned l) -> In x l.
Proof.
  unfold cleaned.
  by intros H%strip_close_fence_In%strip_open_fence_In%trim_In.
Qed.

Lemma emitted_ndjson (ls : list jsstring) :
  Forall (fun l => ~ In LF l) ls ->
  Forall (ndjson_line JSON_parse) (omap (emitted JSON_parse) ls).
Proof.
  induction 1 as [|l ls Hl _ IH]; csimpl; [constructor|].
  unfold emitted at 1. unfold accepted.
  destruct (startsWith _ _) eqn:Hs; [destruct (JSON_parse _) eqn:Hp|];
    cbn [andb]; cbv iota; try done.
  constructor; [|done]. exists (cleaned l). split_and!; try done.
  intros H%list_elem_of_In%cleaned_In. done.
Qed.

(** *** The warnings logged *)

Lemma warnings_process_line l st :
  warnings (effects (process_line JSON_parse (trim l) st)) =
  warnings (effects st) ++ option_list (loop_warning JSON_parse l).
Proof.
  unfold process_line, loop_warning, cleaned.
  destruct (trim l); [by rewrite app_nil_r|].
  destruct (startsWith _ _); [destruct (JSON_parse _)|];
    simpl andb; cbv iota; norm_writes; reflexivity.
Qed.

Lemma warnings_process_lines ls st :
  warnings (effects (process_lines JSON_parse st ls)) =
  warnings (effects st) ++ omap (loop_warning JSON_parse) ls.
Proof.
  revert st. induction ls as [|l ls IH]; intros st; simpl.
  - by rewrite app_nil_r.
  - rewrite IH, warnings_process_line, <- (assoc_L (++)).
    by destruct (loop_warning JSON_parse l).
Qed.

Lemma warnings_flush_buffer st :
  warnings (effects (flush_buffer JSON_parse st)) =
  warnings (effects st) ++ option_list (final_warning JSON_parse (buffer st)).
Proof.
  unfold flush_buffer, final_warning, cleaned.
  destruct (trim (buffer st)); [by rewrite app_nil_r|].
  destruct (startsWith _ _); [destruct (JSON_parse _)|];
    simpl andb; cbv iota; norm_writes; reflexivity.
Qed.

Lemma warnings_frame (fragments : list jsstring) :
  warnings (effects (frame JSON_parse fragments)) =
  omap (loop_warning JSON_parse) (split_lines (concat fragments)).1
  ++ option_list (final_warning JSON_parse (split_lines (concat fragments)).2).
Proof.
  unfold frame. rewrite warnings_flush_buffer, frame_from_spec.
  destruct fragments as [|f fs]; [done|].
  cbn [buffer effects set_buffer initial_state app].
  by rewrite warnings_process_lines.
Qed.

(** X10: the warnings the parser logs for a fragment sequence are, in order,
    one for each newline-terminated line whose cleaned text starts with an
    opening brace and does not parse, quoting up to 50 code units of the
    trimmed line, and then one for the final remainder if it is such a text,
    quoting up to 50 code units of the remainder as it stands.  Lines that do
    not start with an opening brace once cleaned never give a warning. *)
Theorem warnings_of_a_stream (fragments : list jsstring) :
  warnings (effects (frame JSON_parse fragments)) =
  omap (loop_warning JSON_parse) (split_lines (concat fragments)).1
  ++ option_list (final_warning JSON_parse (split_lines (concat fragments)).2).
Proof. apply warnings_frame. Qed.

Lemma no_warning_when_unbraced (fragments : list jsstring) :
  Forall (fun l => startsWith [LBRACE] (cleaned l)
                   && negb (JSON_parse (cleaned l)) = false)
    (candidate_lines (concat fragments)) ->
  warnings (effects (frame JSON_parse fragments)) = [].
Proof.
  rewrite candidate_lines_split, warnings_frame.
  intros [HL HR]%Forall_app. apply Forall_inv in HR.
  unfold final_warning. rewrite HR, app_nil_r.
  induction HL as [|l ls Hl _ IH]; csimpl; [done|].
  unfold loop_warning at 1. by rewrite Hl.
Qed.

(** *** White space after the last record *)

Lemma emitted_snoc_space (l : jsstring) c :
  is_space c = true -> emitted JSON_parse (l ++ [c]) = emitted JSON_parse l.
Proof. intros Hc. unfold emitted, cleaned. by rewrite trim_snoc_space. Qed.

Lemma omap_emitted_snoc_space (text : jsstring) c :
  is_space c = true ->
  omap (emitted JSON_parse) (candidate_lines (text ++ [c])) =
  omap (emitted JSON_parse) (candidate_lines text).
Proof.
  intros Hc. rewrite !candidate_lines_split, split_lines_app.
  rewrite (split_lines_snoc _ _ (split_lines_rest_no_newline text)).
  destruct (c =? LF); cbn [fst snd]; rewrite ?app_nil_r, !omap_app; csimpl.
  - by rewrite app_nil_r.
  - by rewrite emitted_snoc_space.
Qed.

Lemma omap_emitted_trailing_space (blank text : jsstring) :
  forallb is_space blank = true ->
  omap (emitted JSON_parse) (candidate_lines (text ++ blank)) =
  omap (emitted JSON_parse) (candidate_lines text).
Proof.
  revert text. induction blank as [|c blank IH]; intros text; simpl.
  - by rewrite app_nil_r.
  - intros [Hc Hb]%andb_true_iff.
    change (c :: blank) with ([c] ++ blank). rewrite (assoc_L (++)).
    by rewrite IH, omap_emitted_snoc_space.
Qed.

(** X12: white space received after everything else, in one more fragment
    or several, changes nothing in what is written: it makes no difference
    whether the last record ends with a newline, with blank lines, or with
    the end of the stream. *)
Theorem trailing_white_space_is_ignored (fragments blanks : list jsstring) :
  forallb is_space (concat blanks) = true ->
  writes (effects (frame JSON_parse (fragments ++ blanks))) =
  writes (effects (frame JSON_parse fragments)).
Proof.
  intros H. rewrite !writes_frame, concat_app.
  by apply omap_emitted_trailing_space.
Qed.

(** *** Records carry no white space around them *)

(** X13: the text a candidate is cleaned to has no white space at either
    end: trimming it again changes nothing.  So every record written is a
    text without surrounding white space followed by its newline, also when
    white space stood between a fence and the object. *)
Theorem cleaned_text_is_trimmed (l : jsstring) :
  trim (cleaned l) = cleaned l
  /\ forall d, emitted JSON_parse l = Some d ->
       exists c, d = c ++ [LF] /\ trim c = c.
Proof.
  assert (trim (cleaned l) = cleaned l) as E.
  { apply trim_trimmed. unfold cleaned.
    apply trimmed_strip_close_fence, trimmed_strip_open_fence, trimmed_trim. }
  split; [done|]. intros d. unfold emitted.
  destruct (accepted _ _); [|done]. intros [= <-]. by exists (cleaned l).
Qed.

(** *** A fenced block over several lines *)

(** X14: when the text received is a line with the opening fence, a line
    that holds an accepted record and a line with the closing fence, with
    any white space beside the fences and however the text is cut into
    fragments, exactly the record is written, once, and no warning is logged:
    the fence lines clean to the empty text and are dropped silently. *)
Theorem fenced_block_yields_the_record (fragments : list jsstring)
    (p1 p2 record p3 p4 : jsstring) (terminated : bool) :
  forallb is_space (p1 ++ p2 ++ p3 ++ p4) = true ->
  indexOf LF (p1 ++ p2 ++ record ++ p3 ++ p4) = None ->
  accepted JSON_parse (cleaned record) = true ->
  concat fragments =
    (p1 ++ OPEN_FENCE ++ p2) ++ LF :: record ++ LF
      :: (p3 ++ CLOSE_FENCE ++ p4) ++ (if terminated then [LF] else []) ->
  writes (effects (frame JSON_parse fragments)) = [cleaned record ++ [LF]]
  /\ warnings (effects (frame JSON_parse fragments)) = [].
Proof.
  intros Hsp Hnl Hacc Htext.
  rewrite !forallb_app in Hsp.
  apply andb_true_iff in Hsp as [H1 Hsp]. apply andb_true_iff in Hsp as [H2 Hsp].
  apply andb_true_iff in Hsp as [H3 H4].
  assert (forall a b : jsstring, indexOf LF (a ++ b) = None ->
            indexOf LF a = None /\ indexOf LF b = None) as Hsplit.
  { intros a b. induction a as [|d a IH]; simpl; [done|].
    destruct (d =? LF); [done|].
    destruct (indexOf LF (a ++ b)); [done|]. intros _.
    destruct (IH eq_refl) as [-> ->]. done. }
  apply Hsplit in Hnl as [N1 Hnl]. apply Hsplit in Hnl as [N2 Hnl].
  apply Hsplit in Hnl as [Nr Hnl]. apply Hsplit in Hnl as [N3 N4].
  assert (indexOf LF (p1 ++ OPEN_FENCE ++ p2) = None) as No
    by (repeat apply indexOf_app_None; done).
  assert (indexOf LF (p3 ++ CLOSE_FENCE ++ p4) = None) as Nc
    by (repeat apply indexOf_app_None; done).
  assert (exists rest,
            candidate_lines (concat fragments) =
            (p1 ++ OPEN_FENCE ++ p2) :: record :: (p3 ++ CLOSE_FENCE ++ p4) :: rest
            /\ Forall (fun l => l = []) rest) as (rest & Hc & Hrest).
  { rewrite Htext, (candidate_lines_line _ _ No), (candidate_lines_line _ _ Nr).
    destruct terminated.
    - rewrite (candidate_lines_line _ [] Nc). exists [[]]. split; [done|].
      by constructor.
    - rewrite app_nil_r, (candidate_lines_last _ Nc). by exists []. }
  assert (accepted JSON_parse (cleaned record) = true
          -> startsWith [LBRACE] (cleaned record)
             && negb (JSON_parse (cleaned record)) = false) as Hrej.
  { unfold accepted. intros [-> ->]%andb_true_iff. done. }
  pose proof (cleaned_open_fence_line p1 p2 H1 H2) as Co.
  pose proof (cleaned_close_fence_line p3 p4 H3 H4) as Cc.
  assert (emitted JSON_parse (p1 ++ OPEN_FENCE ++ p2) = None) as Eo
    by (unfold emitted; by rewrite Co).
  assert (emitted JSON_parse (p3 ++ CLOSE_FENCE ++ p4) = None) as Ec
    by (unfold emitted; by rewrite Cc).
  assert (emitted JSON_parse record = Some (cleaned record ++ [LF])) as Er
    by (unfold emitted; by rewrite Hacc).
  assert (omap (emitted JSON_parse) rest = []) as Erest.
  { clear Hc. induction Hrest as [|l rest -> _ IH]; [done|]. csimpl. by rewrite IH. }
  set (lo := p1 ++ OPEN_FENCE ++ p2) in *.
  set (lc := p3 ++ CLOSE_FENCE ++ p4) in *.
  split.
  - rewrite writes_frame, Hc. csimpl. by rewrite Eo, Er, Ec, Erest.
  - apply no_warning_when_unbraced. rewrite Hc.
    constructor; [by rewrite Co|]. constructor; [by apply Hrej|].
    constructor; [by rewrite Cc|].
    clear Hc Erest. induction Hrest as [|l rest -> _ IH]; by constructor.
Qed.

End FramingRuns.

(** ** Every run of the handler *)

Lemma is_framing_harmless F :
  forallb is_framing F = true -> forallb harmless F = true.
Proof.
  induction F as [|e F IH]; simpl; [done|].
  intros [He HF]%andb_true_iff. rewrite IH by done.
  by destruct e as [[]| | | | | |].
Qed.

Lemma response_part_app t t' :
  response_part (t ++ t') = response_part t ++ response_part t'.
Proof. apply List.filter_app. Qed.

Lemma response_part_framing F :
  forallb is_framing F = true -> response_part F = ResWrite <$> writes F.
Proof.
  induction F as [|e F IH]; csimpl; [done|].
  intros [He HF]%andb_true_iff.
  destruct e as [[]| | | | | |]; try done; csimpl; by rewrite ?IH.
Qed.

Lemma headersSent_framing F :
  forallb is_framing F = true ->
  headersSent F = match writes F with [] => false | _ :: _ => true end.
Proof.
  induction F as [|e F IH]; csimpl; [done|].
  intros [He HF]%andb_true_iff.
  destruct e as [[]| | | | | |]; try done; csimpl; by rewrite ?IH.
Qed.

Section HandlerRuns.
Variable JSON_parse : jsstring -> bool.
Variable parseFloat : jsstring -> number.
Variable TypeError_message : type_error -> jsstring.

Lemma writes_first_chunk_log fs : writes (first_chunk_log fs) = [].
Proof. by destruct fs. Qed.

Lemma first_chunk_log_framing fs : forallb is_framing (first_chunk_log fs) = true.
Proof. by destruct fs. Qed.

Lemma writes_started F : writes (Log LInfo StreamStarted :: F) = writes F.
Proof. reflexivity. Qed.

(** The trace of the loop: what came before, the start of the stream, the
    [PERF] line if there was a fragment, and the effects of the lines
    completed so far. *)
Lemma stream_state_effects t steps :
  exists F, effects (stream_state JSON_parse t steps) =
            t ++ Log LInfo StreamStarted :: first_chunk_log (yielded steps) ++ F
            /\ forallb is_loop_effect F = true
            /\ writes F = omap (emitted JSON_parse)
                            (split_lines (concat (yielded steps))).1.
Proof.
  unfold stream_state. rewrite run_steps_spec, frame_from_spec.
  destruct (yielded steps) as [|f fs].
  { by exists []. }
  cbn [effects set_providerUsage set_buffer buffer].
  rewrite app_nil_l.
  match goal with |- context [process_lines _ ?st ?ls] =>
    destruct (loop_process_lines JSON_parse ls st) as (F & HF & Hfr);
    pose proof (writes_process_lines JSON_parse ls st) as Hw
  end.
  rewrite HF in Hw |- *. rewrite first_chunk_effects in Hw |- *.
  cbn [effects firstChunkReceived first_chunk_log] in Hw |- *.
  exists F. rewrite <- !app_assoc. split; [done|]. split; [done|].
  rewrite !writes_app in Hw. rewrite <- !app_assoc in Hw.
  by do 3 apply app_inv_head in Hw.
Qed.

Lemma response_part_info_logs t :
  forallb is_info_log t = true -> response_part t = [].
Proof.
  induction t as [|e t IH]; simpl; [done|].
  intros [He Ht]%andb_true_iff. destruct e as [[]| | | | | |]; try done.
  by apply IH.
Qed.

Lemma response_part_preamble req : response_part (preamble req).1 = [].
Proof. apply response_part_info_logs, preamble_logs. Qed.

Lemma response_part_before_key_check env req :
  response_part (before_key_check env req) = STREAM_HEADERS.
Proof.
  unfold before_key_check. by rewrite response_part_app, response_part_preamble.
Qed.

Lemma response_part_before_stream env req :
  response_part (before_stream env req) = STREAM_HEADERS.
Proof.
  unfold before_stream. cbv zeta.
  rewrite response_part_app, response_part_before_key_check. by rewrite app_nil_r.
Qed.

Lemma headersSent_before_stream env req :
  headersSent (before_stream env req) = false.
Proof.
  unfold before_stream. cbv zeta.
  by rewrite headersSent_app, headersSent_before_key_check.
Qed.

Lemma response_part_log_cost env name u :
  response_part (log_cost parseFloat env name u) = [].
Proof.
  unfold log_cost. destruct (_ || _); [|done].
  by destruct (cost_rates _ _ _).
Qed.

(** A stream that completes, effect by effect. *)
Lemma relay_completed_effects env name t steps :
  exists F, relay JSON_parse parseFloat env name t steps None =
            t ++ Log LInfo StreamStarted :: first_chunk_log (yielded steps)
              ++ F ++ [ResEnd; Log LInfo StreamCompleted]
              ++ log_cost parseFloat env name
                   (default zero_usage (last (updates steps)))
            /\ forallb is_framing F = true
            /\ writes F = omap (emitted JSON_parse)
                            (candidate_lines (concat (yielded steps))).
Proof.
  pose proof (writes_relay_completed JSON_parse parseFloat env name t steps) as Hw.
  unfold relay in *. rewrite flush_buffer_usage, stream_state_usage in *.
  destruct (framing_flush_buffer JSON_parse (stream_state JSON_parse t steps))
    as (F2 & E2 & H2).
  destruct (stream_state_effects t steps) as (F1 & E1 & H1 & _).
  rewrite E2, E1 in *. exists (F1 ++ F2).
  split; [by rewrite <- !app_assoc, <- !app_comm_cons, <- !app_assoc|].
  split; [by rewrite forallb_app, (is_loop_effect_framing _ H1), H2|].
  rewrite !writes_app, writes_log_cost, writes_started in Hw.
  rewrite writes_app, writes_first_chunk_log in Hw.
  change (writes [ResEnd; Log LInfo StreamCompleted]) with (@nil jsstring) in Hw.
  rewrite !app_nil_r, app_nil_l, <- !app_assoc in Hw. apply app_inv_head in Hw.
  by rewrite writes_app.
Qed.

(** A stream that raises, effect by effect. *)
Lemma relay_failed_effects env name t steps err :
  headersSent t = false ->
  exists F, forallb is_loop_effect F = true
            /\ writes F = omap (emitted JSON_parse)
                            (split_lines (concat (yielded steps))).1
            /\ relay JSON_parse parseFloat env name t steps (Some err) =
               t ++ Log LInfo StreamStarted :: first_chunk_log (yielded steps)
                 ++ F ++ Log LError (CriticalError err)
                 :: match writes F with
                    | [] => [SetStatus 500;
                             SendJson (ErrorDetails
                               (lit "Failed to generate flashcards") err)]
                    | _ :: _ => [ResEnd]
                    end.
Proof.
  intros Ht. destruct (stream_state_effects t steps) as (F & E & HF & Hw).
  exists F. split; [done|]. split; [done|]. unfold relay. rewrite E.
  assert (headersSent (t ++ Log LInfo StreamStarted
                         :: first_chunk_log (yielded steps) ++ F) =
          match writes F with [] => false | _ :: _ => true end) as Hsent.
  { change (Log LInfo StreamStarted :: ?x) with ([Log LInfo StreamStarted] ++ x).
    rewrite !headersSent_app, Ht.
    rewrite (headersSent_framing F (is_loop_effect_framing _ HF)).
    by destruct (yielded steps). }
  destruct (writes F).
  - rewrite catch_block_unsent by done.
    by rewrite <- !app_assoc, <- !app_comm_cons, <- !app_assoc.
  - rewrite catch_block_sent by done.
    by rewrite <- !app_assoc, <- !app_comm_cons, <- !app_assoc.
Qed.

(** The same two, with all the parser did in one piece. *)
Lemma relay_completed_framing env name t steps :
  exists G, relay JSON_parse parseFloat env name t steps None =
            t ++ G ++ [ResEnd; Log LInfo StreamCompleted]
              ++ log_cost parseFloat env name
                   (default zero_usage (last (updates steps)))
            /\ forallb is_framing G = true.
Proof.
  destruct (relay_completed_effects env name t steps) as (F & -> & HF & _).
  exists (Log LInfo StreamStarted :: first_chunk_log (yielded steps) ++ F).
  split; [by rewrite <- !app_comm_cons, <- !app_assoc|].
  cbn [forallb is_framing]. by rewrite forallb_app, first_chunk_log_framing.
Qed.

Lemma relay_failed_framing env name t steps err :
  headersSent t = false ->
  exists G, forallb is_framing G = true
            /\ relay JSON_parse parseFloat env name t steps (Some err) =
               t ++ G ++ Log LError (CriticalError err)
                 :: match writes G with
                    | [] => [SetStatus 500;
                             SendJson (ErrorDetails
                               (lit "Failed to generate flashcards") err)]
                    | _ :: _ => [ResEnd]
                    end.
Proof.
  intros Ht.
  destruct (relay_failed_effects env name t steps err Ht) as (F & HF & _ & ->).
  exists (Log LInfo StreamStarted :: first_chunk_log (yielded steps) ++ F).
  split.
  { cbn [forallb is_framing].
    by rewrite forallb_app, first_chunk_log_framing, (is_loop_effect_framing _ HF). }
  rewrite writes_started, writes_app, writes_first_chunk_log, app_nil_l.
  by rewrite <- !app_comm_cons, <- !app_assoc.
Qed.

Lemma writes_framing_cons e F : is_framing e = false -> writes (e :: F) = writes F.
Proof. by destruct e as [[]| | | | | |]. Qed.

(** What a run does to the response. *)
Lemma handler_response_cases env w req :
  let t := handler JSON_parse parseFloat TypeError_message env w req in
  ((preamble req).2 = None /\ truthy (topic req) = false
   /\ response_part t =
        [SetStatus 400; SendJson (ErrorBody (lit "Topic is required"))]
   /\ writes t = [])
  \/ (validated req = false
      /\ ((preamble req).2 <> None \/ truthy (topic req) = true)
      /\ (exists e,
            response_part t =
            [SetStatus 500;
             SendJson (ErrorDetails (lit "Failed to generate flashcards")
                         (TypeError_message e))])
      /\ writes t = [])
  \/ (validated req = true
      /\ (exists err,
            response_part t =
            STREAM_HEADERS ++
            [SetStatus 500;
             SendJson (ErrorDetails (lit "Failed to generate flashcards") err)])
      /\ writes t = [])
  \/ (reaches_upstream env req = true
      /\ response_part t = STREAM_HEADERS ++ (ResWrite <$> writes t) ++ [ResEnd]).
Proof.
  intros t.
  destruct (handler_cases JSON_parse parseFloat TypeError_message env w req)
    as [(Hv & e & He & E)|[(Hv & Hp & Ht & E)|[(Hv & Hp & Ht & E)|
        [(Hv & Hk & E)|[(Hv & Hk & err & _ & E)
                       |(Hv & Hk & steps & failure & _ & E)]]]]];
    fold t in E; rewrite E.
  - right. left. split; [done|]. split; [left; congruence|].
    rewrite catch_block_unsent by apply headersSent_preamble.
    rewrite response_part_app, response_part_preamble, writes_app, writes_preamble.
    split; [by eexists|done].
  - left. split; [done|]. split; [done|].
    by rewrite response_part_app, response_part_preamble, writes_app, writes_preamble.
  - right. left. split; [done|]. split; [by right|].
    rewrite catch_block_unsent by apply headersSent_preamble.
    rewrite response_part_app, response_part_preamble, writes_app, writes_preamble.
    split; [by eexists|done].
  - right. right. left. split; [done|].
    rewrite catch_block_unsent.
    2: { by rewrite headersSent_app, headersSent_before_key_check. }
    rewrite <- app_assoc, response_part_app, response_part_before_key_check.
    rewrite writes_app, writes_before_key_check. split; [eexists|]; done.
  - right. right. left. split; [done|].
    rewrite catch_block_unsent by apply headersSent_before_stream.
    rewrite response_part_app, response_part_before_stream.
    rewrite writes_app, writes_before_stream. split; [eexists|]; done.
  - assert (reaches_upstream env req = true) as Hr
      by (unfold reaches_upstream; by rewrite Hv, Hk).
    destruct failure as [err|].
    + destruct (relay_failed_framing env (provider_name env)
                  (before_stream env req) steps err
                  (headersSent_before_stream env req)) as (G & HG & ->).
      rewrite !response_part_app, response_part_before_stream.
      rewrite !writes_app, writes_before_stream, app_nil_l.
      rewrite (response_part_framing G HG).
      destruct (writes G) eqn:Hw.
      * right. right. left. split; [done|]. split; [by eexists|done].
      * do 3 right. split; [done|]. cbn. by rewrite app_nil_r.
    + do 3 right. split; [done|].
      destruct (relay_completed_framing env (provider_name env)
                  (before_stream env req) steps) as (G & -> & HG).
      rewrite !response_part_app, response_part_before_stream.
      rewrite !writes_app, writes_before_stream, app_nil_l.
      rewrite (response_part_framing G HG).
      rewrite response_part_log_cost, writes_log_cost.
      cbn. by rewrite !app_nil_r.
Qed.

Lemma omap_response_part {A} (f : effect -> option A) (t : trace) :
  (forall e, on_response e = false -> f e = None) ->
  omap f (response_part t) = omap f t.
Proof.
  intros Hf. induction t as [|e t IH]; [done|].
  unfold response_part in *. simpl. destruct (on_response e) eqn:He; csimpl.
  - by rewrite IH.
  - by rewrite (Hf e He), IH.
Qed.

Lemma status_code_response_part t :
  status_code (response_part t) = status_code t.
Proof.
  unfold status_code. rewrite omap_response_part; [done|].
  by intros [| | | | | |].
Qed.

Lemma json_sent_response_part t :
  json_sent (response_part t) = json_sent t.
Proof.
  unfold json_sent. rewrite omap_response_part; [done|].
  by intros [| | | | | |].
Qed.

Lemma status_code_streamed ws :
  status_code (STREAM_HEADERS ++ (ResWrite <$> ws) ++ [ResEnd]) = 200%nat
  /\ json_sent (STREAM_HEADERS ++ (ResWrite <$> ws) ++ [ResEnd]) = [].
Proof.
  assert (forallb harmless (STREAM_HEADERS ++ (ResWrite <$> ws) ++ [ResEnd]) = true)
    as H.
  { rewrite !forallb_app. simpl. rewrite andb_true_r.
    induction ws; [done|]. done. }
  pose proof (status_code_harmless [] _ H) as H1.
  pose proof (json_sent_harmless [] _ H) as H2.
  by rewrite app_nil_l in H1, H2.
Qed.

(** X1: what a run does to the response has one of four shapes: status 400
    and the JSON body of the topic check; status 500 and a JSON body with the
    message of a TypeError, thrown before any header was set; the two stream
    headers, status 500 and a JSON body with the error's message; or the two
    stream headers, the chunks written, and the end of the response.  So the
    response is ended exactly once, by its last effect, and nothing is
    written after that. *)
Theorem response_has_one_of_four_shapes (env : environment) (w : world)
    (req : request) :
  let t := handler JSON_parse parseFloat TypeError_message env w req in
  response_part t =
    [SetStatus 400; SendJson (ErrorBody (lit "Topic is required"))]
  \/ (exists e,
        response_part t =
        [SetStatus 500;
         SendJson (ErrorDetails (lit "Failed to generate flashcards")
                     (TypeError_message e))])
  \/ (exists err,
        response_part t =
        STREAM_HEADERS ++
        [SetStatus 500;
         SendJson (ErrorDetails (lit "Failed to generate flashcards") err)])
  \/ response_part t = STREAM_HEADERS ++ (ResWrite <$> writes t) ++ [ResEnd].
Proof.
  intros t. destruct (handler_response_cases env w req)
    as [(_ & _ & E & _)|[(_ & _ & E & _)|[(_ & E & _)|(_ & E)]]];
    fold t in E; auto.
Qed.

(** X2: a response that carries at least one card is never turned into an
    error response: its status is 200, no JSON body is sent, and it is ended
    by [res.end()], also when the upstream raised after the card. *)
Theorem body_never_comes_with_an_error (env : environment) (w : world)
    (req : request) :
  writes (handler JSON_parse parseFloat TypeError_message env w req) <> [] ->
  let t := handler JSON_parse parseFloat TypeError_message env w req in
  status_code t = 200%nat
  /\ json_sent t = []
  /\ last (response_part t) = Some ResEnd.
Proof.
  intros Hw t. subst t.
  destruct (handler_response_cases env w req)
    as [(_ & _ & _ & E)|[(_ & _ & _ & E)|[(_ & _ & E)|(_ & E)]]]; try done.
  rewrite <- status_code_response_part, <- json_sent_response_part, E.
  destruct (status_code_streamed
              (writes (handler JSON_parse parseFloat TypeError_message env w req)))
    as [-> ->].
  split_and!; try done. by rewrite !last_app.
Qed.

(** X3: the status of a run is 200, 400 or 500; it is 400 exactly when
    lines 62-64 run through and the topic is missing or falsy, and it is 200
    exactly when no JSON body is sent. *)
Theorem status_of_a_run (env : environment) (w : world) (req : request) :
  let t := handler JSON_parse parseFloat TypeError_message env w req in
  (status_code t = 200%nat \/ status_code t = 400%nat \/ status_code t = 500%nat)
  /\ (status_code t = 400%nat <->
      (preamble req).2 = None /\ truthy (topic req) = false)
  /\ (status_code t = 200%nat <-> json_sent t = []).
Proof.
  intros t.
  destruct (handler_response_cases env w req)
    as [(Hp & Ht & E & _)|[(_ & Hc & (e & E) & _)|[(Hv & (err & E) & _)|(Hr & E)]]];
    fold t in E;
    rewrite <- (status_code_response_part t), <- (json_sent_response_part t), E.
  - split_and!; [by right; left|done|done].
  - split_and!; [by right; right| |done].
    split; [done|]. intros [Hp Ht]. destruct Hc; congruence.
  - apply validated_spec in Hv as (_ & Ht & _).
    split_and!; [by right; right| |done].
    split; [done|]. intros [_ ?]. congruence.
  - unfold reaches_upstream in Hr. apply andb_true_iff in Hr as [Hv _].
    apply validated_spec in Hv as (_ & Ht & _).
    destruct (status_code_streamed (writes t)) as [-> ->].
    split_and!; [by left| |done].
    split; [done|]. intros [_ ?]. congruence.
Qed.

Lemma upstream_calls_before_stream env req :
  upstream_calls (before_stream env req) = [branch (provider_name env)].
Proof.
  unfold before_stream. cbv zeta.
  match goal with |- context [before_key_check env req ++ ?t'] =>
    by destruct (harmless_prefix (before_key_check env req) t'
                   (harmless_before_key_check env req)) as (-> & _)
  end.
Qed.

(** X4: a run calls the upstream at most once, and exactly once when the
    request gets past line 74, nothing being thrown and the topic being there,
    and the key of the branch taken is set; the provider called is the one of
    that branch. *)
Theorem upstream_called_at_most_once (env : environment) (w : world)
    (req : request) :
  upstream_calls (handler JSON_parse parseFloat TypeError_message env w req) =
  if reaches_upstream env req then [branch (provider_name env)] else [].
Proof.
  unfold reaches_upstream.
  destruct (handler_cases JSON_parse parseFloat TypeError_message env w req)
    as [(Hv & e & He & E)|[(Hv & Hp & Ht & E)|[(Hv & Hp & Ht & E)|
        [(Hv & Hk & E)|[(Hv & Hk & err & _ & E)
                       |(Hv & Hk & steps & failure & _ & E)]]]]];
    cbv zeta in E; rewrite E, Hv, ?Hk; cbn [andb].
  - rewrite catch_block_unsent by apply headersSent_preamble.
    match goal with |- context [(preamble req).1 ++ ?t'] =>
      by destruct (harmless_prefix (preamble req).1 t'
                     (harmless_preamble req)) as (-> & _)
    end.
  - match goal with |- context [(preamble req).1 ++ ?t'] =>
      by destruct (harmless_prefix (preamble req).1 t'
                     (harmless_preamble req)) as (-> & _)
    end.
  - rewrite catch_block_unsent by apply headersSent_preamble.
    match goal with |- context [(preamble req).1 ++ ?t'] =>
      by destruct (harmless_prefix (preamble req).1 t'
                     (harmless_preamble req)) as (-> & _)
    end.
  - rewrite catch_block_unsent.
    2: { by rewrite headersSent_app, headersSent_before_key_check. }
    rewrite <- app_assoc.
    match goal with |- context [before_key_check env req ++ ?t'] =>
      by destruct (harmless_prefix (before_key_check env req) t'
                     (harmless_before_key_check env req)) as (-> & _)
    end.
  - rewrite catch_block_unsent by apply headersSent_before_stream.
    unfold upstream_calls. rewrite omap_app.
    fold (upstream_calls (before_stream env req)).
    by rewrite upstream_calls_before_stream.
  - destruct failure as [err|].
    + destruct (relay_failed_framing env (provider_name env)
                  (before_stream env req) steps err
                  (headersSent_before_stream env req)) as (G & HG & ->).
      apply is_framing_harmless in HG.
      unfold upstream_calls. rewrite !omap_app.
      fold (upstream_calls (before_stream env req)).
      rewrite upstream_calls_before_stream, (omap_harmless _ G); try done.
      * by destruct (writes G).
      * by intros [[]| | | | | |].
    + destruct (relay_completed_harmless JSON_parse parseFloat env
                  (provider_name env) (before_stream env req) steps)
        as (t' & -> & Hh & _).
      by rewrite upstream_calls_harmless, upstream_calls_before_stream.
Qed.

(** X5: when the upstream raises in the middle of the stream, the run is
    the request's preamble and upstream call, the start of the stream, the
    [PERF] line if a fragment came, the effects of the lines completed and
    the error log, and then either the end of the response, when a card was
    written, or status 500 with a JSON body carrying the error's message,
    when none was.  The cards written are those of the lines a newline had
    completed: what was left in the buffer is never flushed, and neither the
    completion of the stream nor any cost is logged. *)
Theorem midstream_failure_truncates (env : environment) (w : world)
    (req : request) (steps : list step) (err : jsstring) :
  streams env w req steps (Some err) ->
  exists F,
    handler JSON_parse parseFloat TypeError_message env w req =
      before_stream env req
        ++ Log LInfo StreamStarted :: first_chunk_log (yielded steps)
        ++ F ++ Log LError (CriticalError err)
        :: match writes F with
           | [] => [SetStatus 500;
                    SendJson (ErrorDetails
                      (lit "Failed to generate flashcards") err)]
           | _ :: _ => [ResEnd]
           end
    /\ forallb is_loop_effect F = true
    /\ writes F = writes (handler JSON_parse parseFloat TypeError_message env w req)
    /\ writes (handler JSON_parse parseFloat TypeError_message env w req) =
       omap (emitted JSON_parse) (split_lines (concat (yielded steps))).1.
Proof.
  intros Hs. rewrite (handler_streams _ _ _ _ _ _ _ _ Hs).
  destruct (relay_failed_effects env (provider_name env)
              (before_stream env req) steps err
              (headersSent_before_stream env req)) as (F & HF & Hw & ->).
  exists F. split; [done|]. split; [done|].
  assert (writes (before_stream env req
            ++ Log LInfo StreamStarted :: first_chunk_log (yielded steps)
            ++ F ++ Log LError (CriticalError err)
            :: match writes F with
               | [] => [SetStatus 500;
                        SendJson (ErrorDetails
                          (lit "Failed to generate flashcards") err)]
               | _ :: _ => [ResEnd]
               end) = writes F) as E.
  { rewrite writes_app, writes_before_stream, writes_started.
    rewrite !writes_app, writes_first_chunk_log.
    rewrite !app_nil_l. destruct (writes F); [done|]. cbn. by rewrite app_nil_r. }
  by rewrite E.
Qed.

(** X6: when the upstream call itself is rejected, the run makes that one
    call, logs the error and answers status 500 with a JSON body carrying
    the error's message; nothing is written to the body. *)
Theorem upstream_rejection_answers_500 (env : environment) (w : world)
    (req : request) (err : jsstring) :
  reaches_upstream env req = true ->
  open_stream w (branch (provider_name env)) = Rejected err ->
  let t := handler JSON_parse parseFloat TypeError_message env w req in
  t = before_stream env req ++
      [Log LError (CriticalError err); SetStatus 500;
       SendJson (ErrorDetails (lit "Failed to generate flashcards") err)]
  /\ upstream_calls t = [branch (provider_name env)]
  /\ status_code t = 500%nat
  /\ json_sent t = [ErrorDetails (lit "Failed to generate flashcards") err]
  /\ writes t = []
  /\ errors t = [CriticalError err].
Proof.
  intros Hr Hopen t.
  assert (t = before_stream env req ++
      [Log LError (CriticalError err); SetStatus 500;
       SendJson (ErrorDetails (lit "Failed to generate flashcards") err)]) as E.
  { subst t. unfold reaches_upstream in Hr.
    apply andb_true_iff in Hr as [Hv Hk].
    destruct (handler_cases JSON_parse parseFloat TypeError_message env w req)
      as [(Hv' & _)|[(Hv' & _)|[(Hv' & _)|
          [(_ & Hk' & _)|[(_ & _ & err' & Ho & ->)|(_ & _ & st & f & Ho & _)]]]]];
      try congruence.
    assert (err' = err) as -> by congruence.
    apply catch_block_unsent, headersSent_before_stream. }
  split; [done|]. rewrite E.
  rewrite writes_app, writes_before_stream.
  split.
  { unfold upstream_calls. rewrite omap_app.
    fold (upstream_calls (before_stream env req)).
    by rewrite upstream_calls_before_stream. }
  unfold before_stream. cbv zeta. rewrite <- app_assoc.
  match goal with |- context [before_key_check env req ++ ?t'] =>
    by destruct (harmless_prefix (before_key_check env req) t'
                   (harmless_before_key_check env req)) as (_ & -> & -> & ->)
  end.
Qed.

Lemma writes_relay_failed env name t steps err :
  headersSent t = false ->
  writes (relay JSON_parse parseFloat env name t steps (Some err)) =
  writes t ++ omap (emitted JSON_parse) (split_lines (concat (yielded steps))).1.
Proof.
  intros Ht.
  destruct (relay_failed_effects env name t steps err Ht) as (F & HF & Hw & ->).
  rewrite writes_app, writes_started, !writes_app, writes_first_chunk_log, <- Hw.
  rewrite app_nil_l. destruct (writes F); [done|]. cbn. by rewrite app_nil_r.
Qed.

(** X11: in every run, whatever the upstream sends and however it ends,
    each chunk written to the response is one NDJSON record: a text that
    starts with an opening brace and that [JSON.parse] accepted, followed by
    a newline, with no other newline in the chunk.  No record is split over
    two chunks and no chunk holds two records. *)
Theorem written_chunks_are_ndjson (env : environment) (w : world)
    (req : request) :
  Forall (ndjson_line JSON_parse)
    (writes (handler JSON_parse parseFloat TypeError_message env w req)).
Proof.
  destruct (handler_response_cases env w req)
    as [(_ & _ & _ & ->)|[(_ & _ & _ & ->)|[(_ & _ & ->)|(Hr & _)]]];
    try constructor.
  unfold reaches_upstream in Hr. apply andb_true_iff in Hr as [Hv Hk].
  destruct (handler_cases JSON_parse parseFloat TypeError_message env w req)
    as [(Hv' & _)|[(Hv' & _)|[(Hv' & _)|
        [(_ & Hk' & _)|[(_ & _ & err & _ & E)
                       |(_ & _ & steps & failure & _ & E)]]]]];
    try congruence; cbv zeta in E; rewrite E.
  - rewrite catch_block_unsent by apply headersSent_before_stream.
    rewrite writes_app, writes_before_stream. constructor.
  - destruct failure as [err|].
    + rewrite writes_relay_failed by apply headersSent_before_stream.
      rewrite writes_before_stream. apply emitted_ndjson.
      apply complete_lines_no_newline.
    + rewrite writes_relay_completed, writes_before_stream.
      apply emitted_ndjson, candidate_lines_no_newline.
Qed.

(** X15: a stream that completes gives the request's preamble and upstream
    call, the start of the stream, the [PERF] line if a fragment came, the
    effects of the parser, whose writes are those of the accepted candidates,
    then the end of the response, the completion line and the cost lines for
    the last usage observed.  The cost is worked out only after the response
    has been ended, so it can neither delay nor change the body. *)
Theorem completed_stream_trace (env : environment) (w : world) (req : request)
    (steps : list step) :
  streams env w req steps None ->
  exists F,
    handler JSON_parse parseFloat TypeError_message env w req =
      before_stream env req
        ++ Log LInfo StreamStarted :: first_chunk_log (yielded steps)
        ++ F ++ [ResEnd; Log LInfo StreamCompleted]
        ++ log_cost parseFloat env (provider_name env)
             (default zero_usage (last (updates steps)))
    /\ forallb is_framing F = true
    /\ writes F = omap (emitted JSON_parse)
                    (candidate_lines (concat (yielded steps))).
Proof.
  intros Hs. rewrite (handler_streams _ _ _ _ _ _ _ _ Hs).
  apply relay_completed_effects.
Qed.

End HandlerRuns.

(** ** The adapters and the choice of provider *)

(** X16: the Gemini adapter yields the text of every chunk, in order, the
    empty ones included; the OpenAI adapter yields the content of every chunk
    that has one and skips the chunks whose content is missing or empty, so
    that it never yields an empty fragment and the concatenation of what it
    yields is the concatenation of the contents. *)
Theorem adapters_lose_no_text :
  (forall chunks, yielded (gemini_iterator chunks) = text <$> chunks)
  /\ (forall chunks,
        concat (yielded (openai_iterator chunks)) =
        concat ((fun c => default [] (delta_content c)) <$> chunks))
  /\ (forall chunks, Forall (fun f => f <> []) (yielded (openai_iterator chunks))).
Proof.
  split_and!; intros chunks.
  - induction chunks as [|c cs IH]; [done|].
    unfold gemini_iterator in *. csimpl. unfold yielded in *.
    rewrite omap_app, IH. unfold gemini_steps.
    by destruct (usageMetadata c).
  - induction chunks as [|c cs IH]; [done|].
    unfold openai_iterator in *. csimpl. unfold yielded in *.
    rewrite omap_app, concat_app, IH. unfold openai_steps.
    destruct (usage c); destruct (delta_content c) as [[|]|]; csimpl;
      by rewrite ?app_nil_r.
  - induction chunks as [|c cs IH]; [constructor|].
    unfold openai_iterator in *. csimpl. unfold yielded in *.
    rewrite omap_app. apply Forall_app. split; [|done].
    unfold openai_steps.
    destruct (usage c); destruct (delta_content c) as [[|]|]; csimpl;
      by repeat constructor.
Qed.

(** X17: the Gemini branch is taken exactly when [AI_PROVIDER] is set to
    [gemini], letter for letter; when it is unset, empty or anything else the
    OpenAI branch is taken, for the key checked, the upstream called and the
    rates of the cost estimate alike. *)
Theorem gemini_only_when_named (env : environment) :
  (branch (provider_name env) = Gemini <-> env !! "AI_PROVIDER" = Some GEMINI)
  /\ (branch (provider_name env) = OpenAI <-> env !! "AI_PROVIDER" <> Some GEMINI).
Proof.
  unfold provider_name, env_or, branch.
  destruct (env !! "AI_PROVIDER") as [[|c v]|].
  - change (bool_decide (OPENAI = GEMINI)) with false. naive_solver.
  - destruct (decide (c :: v = GEMINI)) as [->|Hne].
    + rewrite bool_decide_eq_true_2 by done. naive_solver.
    + rewrite bool_decide_eq_false_2 by done. naive_solver.
  - change (bool_decide (OPENAI = GEMINI)) with false. naive_solver.
Qed.

(** ** Records in, records out *)

Section RoundTrip.
Variable JSON_parse : jsstring -> bool.
Variable parseFloat : jsstring -> number.
Variable TypeError_message : type_error -> jsstring.

Lemma cleaned_record_text r :
  record_text JSON_parse r ->
  cleaned r = r /\ accepted JSON_parse r = true.
Proof.
  intros ((body & ->) & _ & Hp). split.
  - pose proof (cleaned_fenced_line [] false [] body [] false []
                  eq_refl eq_refl eq_refl eq_refl) as H.
    unfold fenced_line in H. cbn [app] in H. by rewrite !app_nil_r in H.
  - unfold accepted. by rewrite Hp.
Qed.

Lemma candidate_lines_ndjson records :
  Forall (record_text JSON_parse) records ->
  candidate_lines (ndjson records) = records ++ [[]].
Proof.
  unfold ndjson. induction 1 as [|r rs (_ & Hr & _) _ IH]; [done|].
  csimpl. rewrite <- app_assoc. cbn [app].
  by rewrite (candidate_lines_line _ _ Hr), IH.
Qed.

Lemma omap_emitted_records records :
  Forall (record_text JSON_parse) records ->
  omap (emitted JSON_parse) records = (fun r => r ++ [LF]) <$> records.
Proof.
  induction 1 as [|r rs Hr _ IH]; [done|]. csimpl.
  destruct (cleaned_record_text r Hr) as [Hc Ha].
  unfold emitted at 1. by rewrite Hc, Ha, IH.
Qed.

(** X18: the parser undoes the NDJSON encoding.  When the text received is
    a list of object texts that [JSON.parse] accepts, each on one line and
    followed by a newline, then however the text is cut into fragments the
    chunks written are those records, each with its newline, in order: none
    is lost, altered, merged or repeated. *)
Theorem frame_inverts_ndjson (fragments records : list jsstring) :
  Forall (record_text JSON_parse) records ->
  concat fragments = ndjson records ->
  writes (effects (frame JSON_parse fragments)) = (fun r => r ++ [LF]) <$> records
  /\ concat (writes (effects (frame JSON_parse fragments))) = concat fragments
  /\ warnings (effects (frame JSON_parse fragments)) = [].
Proof.
  intros Hr Htext.
  assert (writes (effects (frame JSON_parse fragments))
          = (fun r => r ++ [LF]) <$> records) as E.
  { rewrite writes_frame, Htext, (candidate_lines_ndjson _ Hr), omap_app.
    rewrite (omap_emitted_records _ Hr). csimpl. by rewrite app_nil_r. }
  split; [done|]. split; [by rewrite E, Htext|].
  apply no_warning_when_unbraced.
  rewrite Htext, (candidate_lines_ndjson _ Hr). apply Forall_app. split.
  - eapply Forall_impl; [exact Hr|]. intros r Hrec.
    destruct (cleaned_record_text r Hrec) as [-> Ha].
    unfold accepted in Ha. by apply andb_true_iff in Ha as [-> ->].
  - by repeat constructor.
Qed.

(** X19: the body depends on the text received and on nothing else.  Two
    runs that reach their streams and complete, whatever their providers,
    their environments, their requests, the cutting into chunks and the
    metering in them, write the same chunks when the fragments they yield
    concatenate to the same text. *)
Theorem same_text_same_body (env env' : environment) (w w' : world)
    (req req' : request) (steps steps' : list step) :
  streams env w req steps None ->
  streams env' w' req' steps' None ->
  concat (yielded steps) = concat (yielded steps') ->
  writes (handler JSON_parse parseFloat TypeError_message env w req) =
  writes (handler JSON_parse parseFloat TypeError_message env' w' req').
Proof.
  intros Hs Hs' Htext.
  rewrite (handler_writes_completed _ _ _ _ _ _ _ Hs).
  rewrite (handler_writes_completed _ _ _ _ _ _ _ Hs').
  by rewrite Htext.
Qed.

(** X20: a failure of the upstream only cuts the body short.  What a run
    writes when the stream raises after some fragments is the beginning of
    what it writes when the stream ends normally after the same fragments:
    the only chunk that can be missing is the one the final buffer would have
    given. *)
Theorem failure_only_truncates (env : environment) (w w' : world)
    (req : request) (steps : list step) (err : jsstring) :
  streams env w req steps (Some err) ->
  streams env w' req steps None ->
  exists final,
    writes (handler JSON_parse parseFloat TypeError_message env w' req) =
    writes (handler JSON_parse parseFloat TypeError_message env w req) ++ final
    /\ final = option_list
                 (emitted JSON_parse (split_lines (concat (yielded steps))).2).
Proof.
  intros Hf Hc.
  rewrite (handler_streams _ _ _ _ _ _ _ _ Hf), (handler_streams _ _ _ _ _ _ _ _ Hc).
  rewrite writes_relay_completed, writes_before_stream.
  rewrite writes_relay_failed by apply headersSent_before_stream.
  rewrite writes_before_stream, candidate_lines_split, omap_app.
  eexists. split; [|reflexivity]. cbn [app]. f_equal.
Qed.

End RoundTrip.

(** ** Runs on concrete inputs *)

Example json_demo :
  Json.valid (js "{'front':'Q1','back':'A\n1','code':'', 'n':[1,-2.5e+3,true,null,{}]}") = true
  /\ Json.valid (js "{'front':'Q1',}") = false
  /\ Json.valid (js "{'a':01}") = false
  /\ Json.valid (js "{'a':1} x") = false
  /\ Json.valid (js " [ ] ") = true
  /\ Json.valid (js "{bad") = false
  /\ Json.valid (js "{'a':'\u00e9\x'}") = false.
Proof. vm_compute. repeat split. Qed.

Example parseFloat_demo :
  Runtime.parseFloat (lit "0.10") = (1 / 10)%float
  /\ Runtime.parseFloat (lit "2.50") = 2.5%float
  /\ Runtime.parseFloat (lit "10.00") = 10%float
  /\ Runtime.parseFloat (lit " -0.40 per million") = (- (4 / 10))%float
  /\ PrimFloat.is_nan (Runtime.parseFloat (lit "free")) = true.
Proof. vm_compute. repeat split. Qed.

Example handler_demo :
  writes (handler Json.valid Runtime.parseFloat v8_message Demo.gemini_env Demo.world1
            Demo.request1)
  = [Demo.card1 ++ [LF]; Demo.card2 ++ [LF]]
  /\ warnings (handler Json.valid Runtime.parseFloat v8_message Demo.gemini_env Demo.world1
                 Demo.request1) = []
  /\ warnings (handler Json.valid Runtime.parseFloat v8_message Demo.openai_env Demo.world1
                 Demo.request1) = [UsageNotCollected]
  /\ writes (handler Json.valid Runtime.parseFloat v8_message Demo.openai_env Demo.world1
               Demo.request1) = [Demo.card1 ++ [LF]].
Proof. vm_compute. repeat split. Qed.

(** Requests that make the handler throw before any header is set: the
    run is the request line, the topic line when line 63 got through, the
    error line and the 500 of the [catch]; no call is made and no stream is
    opened, whatever the environment and the upstream. *)
Example odd_topic_demo :
  handler Json.valid Runtime.parseFloat v8_message Demo.gemini_env Demo.world1
    Demo.request_with_odd_topic =
  [Log LInfo ReceivedRequest;
   Log LError (CriticalError (lit "Cannot convert object to primitive value"));
   SetStatus 500;
   SendJson (ErrorDetails (lit "Failed to generate flashcards")
               (lit "Cannot convert object to primitive value"))].
Proof. vm_compute. reflexivity. Qed.

Example odd_item_demo :
  handler Json.valid Runtime.parseFloat v8_message Demo.gemini_env Demo.world1
    Demo.request_with_odd_item =
  [Log LInfo ReceivedRequest;
   Log LInfo (RequestTopic (JString (lit "Rocq")));
   Log LInfo (ContextProvided (JNumber 2));
   Log LError (CriticalError (lit "Cannot convert object to primitive value"));
   SetStatus 500;
   SendJson (ErrorDetails (lit "Failed to generate flashcards")
               (lit "Cannot convert object to primitive value"))].
Proof. vm_compute. reflexivity. Qed.

Example no_body_demo :
  handler Json.valid Runtime.parseFloat v8_message Demo.gemini_env Demo.world1
    Demo.request_without_body =
  [Log LInfo ReceivedRequest;
   Log LError (CriticalError
     (lit "Cannot destructure property 'topic' of 'req.body' as it is undefined."));
   SetStatus 500;
   SendJson (ErrorDetails (lit "Failed to generate flashcards")
     (lit "Cannot destructure property 'topic' of 'req.body' as it is undefined."))].
Proof. vm_compute. reflexivity. Qed.

(** Values that convert and values that do not: an object converts unless
    it has a [toString] of its own, an array unless one of its items does
    not, and a later [toString] replaces an earlier one without making the
    object convertible. *)
Example toString_throws_demo :
  toString_throws (JObject []) = false
  /\ toString_throws (JObject [(lit "valueOf", JNumber 1)]) = false
  /\ toString_throws (JObject [(lit "toString", JNull)]) = true
  /\ toString_throws (JArray [JNull; JUndefined; JString (lit "a")]) = false
  /\ toString_throws (JArray [JArray [JObject [(lit "toString", JNumber 1)]]])
     = true
  /\ get (lit "a") (JObject [(lit "a", JNumber 1); (lit "a", JNumber 2)])
     = JNumber 2.
Proof. vm_compute. repeat split. Qed.

(** The fenced block of the specification, on three lines: the two fence
    lines clean to the empty text and are dropped without a warning, the
    object between them is written once. *)
Example fenced_block_demo :
  let t := effects (frame Json.valid
             [js " ```json
{'front':'Q','back':'A','code':''}
``` 
"]) in
  writes t = [js "{'front':'Q','back':'A','code':''}
"] /\ warnings t = [].
Proof. vm_compute. repeat split. Qed.

Example is_space_demo :
  forallb is_space [9; 10; 11; 12; 13; 32; 160; 5760; 8192; 8202; 8232; 8233;
                    8239; 8287; 12288; 65279] = true
  /\ existsb is_space [8; 14; 31; 33; 96; 123; 133; 6158; 8203; 8288] = false.
Proof. vm_compute. split; reflexivity. Qed.

(** The closing pattern takes the last three backticks only, with the white
    space before them. *)
Example strip_close_fence_demo :
  strip_close_fence (lit "````") = lit "`"
  /\ strip_close_fence (lit "``` ```") = lit "```"
  /\ strip_close_fence (lit "{} ``` x") = lit "{} ``` x"
  /\ strip_open_fence (lit "```JSON {}") = lit "```JSON {}"
  /\ strip_open_fence (lit "x```json {}") = lit "x```json {}".
Proof. vm_compute. repeat split. Qed.

(** C2 at one text, cut into fragments of one code unit and taken whole. *)
Lemma frame_fragmentation_agnostic_witness :
  concat (Demo.one_by_one Demo.received) = concat [Demo.received]
  /\ writes (effects (frame Json.valid (Demo.one_by_one Demo.received))) =
     writes (effects (frame Json.valid [Demo.received]))
  /\ effects (frame Json.valid (Demo.one_by_one Demo.received)) =
     effects (frame Json.valid [Demo.received]).
Proof.
  assert (concat (Demo.one_by_one Demo.received) = concat [Demo.received]) as H
    by (vm_compute; reflexivity).
  split; [exact H|].
  destruct (frame_fragmentation_agnostic Json.valid _ _ H)
    as (Hw & E & H1 & H2).
  split; [exact Hw|]. etrans; [exact H1|]. symmetry. exact H2.
Defined.

(** C3 as stated fails: a line that does not start with an opening brace is
    dropped without any warning. *)
Lemma unbraced_line_not_warned :
  trim Demo.malformed <> []
  /\ startsWith [LBRACE] (cleaned Demo.malformed) = false
  /\ warnings (effects (process_line Json.valid (trim Demo.malformed)
                          initial_state)) = [].
Proof. vm_compute. repeat split. discriminate. Qed.

(** C3 as amended, at a line that starts with a brace and does not parse. *)
Lemma rejected_line_discarded_witness :
  trim (lit " {bad ") <> []
  /\ accepted Json.valid (cleaned (lit " {bad ")) = false
  /\ writes (effects (process_line Json.valid (trim (lit " {bad "))
                        initial_state)) = []
  /\ warnings (effects (process_line Json.valid (trim (lit " {bad "))
                          initial_state)) = [SkippingInvalid (lit "{bad")].
Proof.
  assert (trim (lit " {bad ") <> []) as H1 by (vm_compute; discriminate).
  assert (accepted Json.valid (cleaned (lit " {bad ")) = false) as H2
    by (vm_compute; reflexivity).
  destruct (rejected_line_discarded Json.valid (lit " {bad ") initial_state H1 H2)
    as (Hw & _ & Hwarn & _).
  split; [exact H1|]. split; [exact H2|]. split; [exact Hw | exact Hwarn].
Defined.

(** C5 on the Gemini branch: two cards around [not json], in three chunks. *)
Lemma malformed_line_skipped_witness :
  streams Demo.gemini_env Demo.world1 Demo.request1
    (gemini_iterator Demo.gemini_chunks) None
  /\ let t := handler Json.valid Runtime.parseFloat v8_message Demo.gemini_env Demo.world1
                Demo.request1 in
     writes t = [cleaned Demo.card1 ++ [LF]; cleaned Demo.card2 ++ [LF]]
     /\ ResEnd ∈ t
     /\ Log LInfo StreamCompleted ∈ t
     /\ status_code t = 200%nat
     /\ json_sent t = []
     /\ errors t = [].
Proof.
  assert (streams Demo.gemini_env Demo.world1 Demo.request1
            (gemini_iterator Demo.gemini_chunks) None) as Hs
    by (repeat split; vm_compute; reflexivity).
  split; [exact Hs|].
  apply (malformed_line_skipped Json.valid Runtime.parseFloat v8_message _ _ _ _
           Demo.card1 Demo.malformed Demo.card2 true Hs);
    vm_compute; reflexivity.
Defined.



(** C7 on the Gemini branch with no key set. *)
Lemma missing_key_fails_before_upstream_witness :
  env_set Demo.keyless_env (api_key_var (branch (provider_name Demo.keyless_env)))
    = false
  /\ let t := handler Json.valid Runtime.parseFloat v8_message Demo.keyless_env
                Demo.world1 Demo.request1 in
     upstream_calls t = []
     /\ writes t = []
     /\ status_code t = 500%nat
     /\ json_sent t = [ErrorDetails (lit "Failed to generate flashcards")
                         (lit "GEMINI_API_KEY missing")].
Proof.
  assert (env_set Demo.keyless_env
            (api_key_var (branch (provider_name Demo.keyless_env))) = false) as H
    by (vm_compute; reflexivity).
  split; [exact H|].
  destruct (missing_key_fails_before_upstream Json.valid Runtime.parseFloat
              v8_message Demo.keyless_env Demo.world1 Demo.request1 H)
    as (H1 & H2 & _ & _ & Hv & _).
  destruct (Hv eq_refl) as (H3 & H4 & _).
  split; [exact H1|]. split; [exact H2|]. split; [exact H3|exact H4].
Defined.

(** C8 on the Gemini branch with its default rates: 1000 input and 500
    output tokens. *)
Lemma cost_estimate_as_specified_witness :
  (0 <? 1000)%float = true
  /\ log_cost Runtime.parseFloat Demo.gemini_env GEMINI
       {| inputTokens := 1000; outputTokens := 500 |} =
     [Log LInfo (CostProvider GEMINI);
      Log LInfo (CostUsage 1000 500);
      Log LInfo (CostEstimated
        (1000 / 1000000 * (1 / 10) + 500 / 1000000 * (4 / 10))%float)].
Proof.
  split; [reflexivity|].
  destruct (cost_estimate_as_specified Json.valid Runtime.parseFloat
              Demo.gemini_env GEMINI
              {| inputTokens := 1000; outputTokens := 500 |})
    as (H & _).
  destruct (H (or_introl eq_refl)) as (-> & _).
  vm_compute. reflexivity.
Defined.

(** C9 at a card between both fences, on one line. *)
Lemma fenced_object_written_once_witness :
  let body := js "'front':'Q','back':'A','code':''" in
  let obj := LBRACE :: body ++ [RBRACE] in
  let line := fenced_line (lit " ") true (lit " ") obj (lit "  ") true (lit " ") in
  Json.valid obj = true
  /\ line = js " ```json {'front':'Q','back':'A','code':''}  ``` "
  /\ cleaned line = obj
  /\ writes (effects (process_line Json.valid (trim line) initial_state)) =
     [obj ++ [LF]]
  /\ BACKTICK ∉ obj ++ [LF].
Proof.
  intros body obj line.
  assert (Json.valid obj = true) as Hv by (vm_compute; reflexivity).
  destruct (fenced_object_written_once Json.valid (lit " ") (lit " ") body
              (lit "  ") (lit " ") true true initial_state
              eq_refl eq_refl eq_refl eq_refl Hv)
    as (Hc & Hw & _ & _ & Hb).
  split; [exact Hv|]. split; [vm_compute; reflexivity|].
  split; [exact Hc|]. split; [exact Hw|].
  apply Hb. vm_compute.
  intros H. repeat (apply elem_of_cons in H as [H|H]; [discriminate H|]).
  by apply elem_of_nil in H.
Defined.

(** X2 and X5 on a stream that raises after one card and a half: the card
    stays, the half is lost, the response is ended with status 200. *)
Lemma body_never_comes_with_an_error_witness :
  writes (handler Json.valid Runtime.parseFloat v8_message Demo.gemini_env
            Failing.cut_world Demo.request1) = [Demo.card1 ++ [LF]]
  /\ let t := handler Json.valid Runtime.parseFloat v8_message Demo.gemini_env
                Failing.cut_world Demo.request1 in
     status_code t = 200%nat
     /\ json_sent t = []
     /\ last (response_part t) = Some ResEnd.
Proof.
  split; [vm_compute; reflexivity|].
  apply (body_never_comes_with_an_error Json.valid Runtime.parseFloat v8_message).
  vm_compute. discriminate.
Defined.

Lemma midstream_failure_truncates_witness :
  let steps :=
    gemini_iterator
      [ {| usageMetadata := None; text := Demo.card1 ++ [LF] |};
        {| usageMetadata := None; text := take 12 Demo.card2 |} ] in
  streams Demo.gemini_env Failing.cut_world Demo.request1 steps
    (Some (lit "socket hang up"))
  /\ writes (handler Json.valid Runtime.parseFloat v8_message Demo.gemini_env
               Failing.cut_world Demo.request1) = [Demo.card1 ++ [LF]].
Proof.
  intros steps.
  assert (streams Demo.gemini_env Failing.cut_world Demo.request1 steps
            (Some (lit "socket hang up"))) as Hs
    by (repeat split; vm_compute; reflexivity).
  split; [exact Hs|].
  destruct (midstream_failure_truncates Json.valid Runtime.parseFloat v8_message _ _ _ _ _ Hs)
    as (F & _ & _ & _ & ->).
  vm_compute. reflexivity.
Defined.

(** X6 on a call that is rejected. *)
Lemma upstream_rejection_answers_500_witness :
  reaches_upstream Demo.gemini_env Demo.request1 = true
  /\ let t := handler Json.valid Runtime.parseFloat v8_message Demo.gemini_env
                Failing.rejecting_world Demo.request1 in
     status_code t = 500%nat
     /\ json_sent t = [ErrorDetails (lit "Failed to generate flashcards")
                         (lit "429 Too Many Requests")]
     /\ writes t = []
     /\ errors t = [CriticalError (lit "429 Too Many Requests")].
Proof.
  split; [vm_compute; reflexivity|].
  destruct (upstream_rejection_answers_500 Json.valid Runtime.parseFloat
              v8_message Demo.gemini_env Failing.rejecting_world Demo.request1
              (lit "429 Too Many Requests"))
    as (_ & _ & H1 & H2 & H3 & H4); [vm_compute; reflexivity..|].
  repeat split; assumption.
Defined.

(** X9 at half a card arriving first, in an empty buffer. *)
Lemma fragment_without_newline_is_buffered_witness :
  indexOf LF (buffer initial_state ++ take 12 Demo.card1) = None
  /\ let st' := on_content Json.valid (take 12 Demo.card1) initial_state in
     buffer st' = take 12 Demo.card1
     /\ effects st' = [Log LInfo FirstContentChunk]
     /\ writes (effects st') = []
     /\ cardCount st' = O
     /\ firstChunkReceived st' = true.
Proof.
  split; [vm_compute; reflexivity|].
  apply (fragment_without_newline_is_buffered Json.valid (take 12 Demo.card1)
           initial_state).
  vm_compute. reflexivity.
Defined.

(** X12 at a card followed by blank lines in two more fragments. *)
Lemma trailing_white_space_is_ignored_witness :
  forallb is_space (concat [lit " "; [LF; 9; LF]]) = true
  /\ writes (effects (frame Json.valid ([Demo.card1] ++ [lit " "; [LF; 9; LF]]))) =
     writes (effects (frame Json.valid [Demo.card1])).
Proof.
  split; [vm_compute; reflexivity|].
  apply (trailing_white_space_is_ignored Json.valid).
  vm_compute. reflexivity.
Defined.

(** X13 at a card between fences with white space inside them. *)
Lemma cleaned_text_is_trimmed_witness :
  emitted Json.valid (js " ```json  {'front':'Q','back':'A','code':''}  ``` ")
  = Some (js "{'front':'Q','back':'A','code':''}" ++ [LF])
  /\ exists c, js "{'front':'Q','back':'A','code':''}" ++ [LF] = c ++ [LF]
               /\ trim c = c.
Proof.
  assert (emitted Json.valid
            (js " ```json  {'front':'Q','back':'A','code':''}  ``` ")
          = Some (js "{'front':'Q','back':'A','code':''}" ++ [LF])) as H
    by (vm_compute; reflexivity).
  split; [exact H|].
  exact (proj2 (cleaned_text_is_trimmed Json.valid _) _ H).
Defined.

(** X14 at the fenced block of three lines, one code unit at a time. *)
Lemma fenced_block_yields_the_record_witness :
  let fragments :=
    Demo.one_by_one
      ((lit " " ++ OPEN_FENCE ++ []) ++ LF :: Demo.card1 ++ LF
         :: ([] ++ CLOSE_FENCE ++ lit " ") ++ [LF]) in
  writes (effects (frame Json.valid fragments)) = [Demo.card1 ++ [LF]]
  /\ warnings (effects (frame Json.valid fragments)) = [].
Proof.
  intros fragments.
  destruct (fenced_block_yields_the_record Json.valid fragments
              (lit " ") [] Demo.card1 [] (lit " ") true) as [Hw Hn];
    try (vm_compute; reflexivity).
  split; [|exact Hn]. rewrite Hw. vm_compute. reflexivity.
Defined.

(** X15 on the Gemini branch: the cost lines come last, after the end. *)
Lemma completed_stream_trace_witness :
  streams Demo.gemini_env Demo.world1 Demo.request1
    (gemini_iterator Demo.gemini_chunks) None
  /\ exists F,
       handler Json.valid Runtime.parseFloat v8_message Demo.gemini_env Demo.world1
         Demo.request1 =
       before_stream Demo.gemini_env Demo.request1
         ++ Log LInfo StreamStarted :: Log LInfo FirstContentChunk :: F
         ++ [ResEnd; Log LInfo StreamCompleted]
         ++ log_cost Runtime.parseFloat Demo.gemini_env
              (provider_name Demo.gemini_env)
              {| inputTokens := 1000; outputTokens := 500 |}.
Proof.
  assert (streams Demo.gemini_env Demo.world1 Demo.request1
            (gemini_iterator Demo.gemini_chunks) None) as Hs
    by (repeat split; vm_compute; reflexivity).
  split; [exact Hs|].
  destruct (completed_stream_trace Json.valid Runtime.parseFloat v8_message _ _ _ _ Hs)
    as (F & E & _).
  exists F. exact E.
Defined.

(** X18 at two cards, one code unit at a time. *)
Lemma frame_inverts_ndjson_witness :
  Forall (record_text Json.valid) [Demo.card1; Demo.card2]
  /\ writes (effects (frame Json.valid
                        (Demo.one_by_one (ndjson [Demo.card1; Demo.card2])))) =
     [Demo.card1 ++ [LF]; Demo.card2 ++ [LF]].
Proof.
  assert (Forall (record_text Json.valid) [Demo.card1; Demo.card2]) as H.
  { repeat constructor; try (vm_compute; reflexivity).
    - exists (removelast (tail Demo.card1)). vm_compute. reflexivity.
    - exists (removelast (tail Demo.card2)). vm_compute. reflexivity. }
  split; [exact H|].
  apply (frame_inverts_ndjson Json.valid
           (Demo.one_by_one (ndjson [Demo.card1; Demo.card2])) _ H).
  vm_compute. reflexivity.
Defined.

(** X19 between the Gemini branch and the OpenAI branch. *)
Lemma same_text_same_body_witness :
  concat (yielded (gemini_iterator Demo.gemini_chunks)) = Demo.received
  /\ writes (handler Json.valid Runtime.parseFloat v8_message Demo.gemini_env Demo.world1
               Demo.request1) =
     writes (handler Json.valid Runtime.parseFloat v8_message Demo.openai_env
               Failing.openai_world Demo.request1).
Proof.
  split; [vm_compute; reflexivity|].
  eapply (same_text_same_body Json.valid Runtime.parseFloat v8_message
            Demo.gemini_env Demo.openai_env Demo.world1 Failing.openai_world
            Demo.request1 Demo.request1
            (gemini_iterator Demo.gemini_chunks)
            (openai_iterator
               [ {| usage := None; delta_content := Some (take 7 Demo.received) |};
                 {| usage := None; delta_content := Some [] |};
                 {| usage := None; delta_content := Some (drop 7 Demo.received) |};
                 {| usage := Some {| prompt_tokens := 12; completion_tokens := 34 |};
                    delta_content := None |} ]));
    try (repeat split; vm_compute; reflexivity).
Defined.

(** X20 at a stream cut after one card and a half, and the same stream
    left to end. *)
Lemma failure_only_truncates_witness :
  exists final,
    writes (handler Json.valid Runtime.parseFloat v8_message Demo.gemini_env
              Failing.uncut_world Demo.request1) =
    writes (handler Json.valid Runtime.parseFloat v8_message Demo.gemini_env
              Failing.cut_world Demo.request1) ++ final
    /\ final = [].
Proof.
  destruct (failure_only_truncates Json.valid Runtime.parseFloat v8_message
              Demo.gemini_env Failing.cut_world Failing.uncut_world
              Demo.request1
              (gemini_iterator
                 [ {| usageMetadata := None; text := Demo.card1 ++ [LF] |};
                   {| usageMetadata := None; text := take 12 Demo.card2 |} ])
              (lit "socket hang up"))
    as (final & E & Hf); try (repeat split; vm_compute; reflexivity).
  exists final. split; [exact E|]. rewrite Hf. vm_compute. reflexivity.
Defined.

(** A whole card waiting in the buffer for its newline is lost when the
    stream raises: only the final-buffer handling would have written it. *)
Example pending_card_lost_demo :
  let cut :=
    {| gemini_api :=
         Streaming [ {| usageMetadata := None;
                        text := Demo.card1 ++ LF :: Demo.card2 |} ]
           (Some (lit "socket hang up"));
       openai_api := Rejected (lit "unused") |} in
  let uncut :=
    {| gemini_api :=
         Streaming [ {| usageMetadata := None;
                        text := Demo.card1 ++ LF :: Demo.card2 |} ] None;
       openai_api := Rejected (lit "unused") |} in
  writes (handler Json.valid Runtime.parseFloat v8_message Demo.gemini_env cut Demo.request1)
  = [Demo.card1 ++ [LF]]
  /\ writes (handler Json.valid Runtime.parseFloat v8_message Demo.gemini_env uncut
               Demo.request1)
     = [Demo.card1 ++ [LF]; Demo.card2 ++ [LF]].
Proof. vm_compute. split; reflexivity. Qed.
